(** * Gene and disease extraction pipeline: a shallow embedding

    The development follows the Python sources of the repository:
    - [gene_metadata.py]: [_is_generic], [is_valid_disease_name], the HGNC,
      NCBI and Ensembl fetchers and [associate_diseases];
    - [gene_extractor.py]: [extract_genes];
    - [article_retriever.py]: [get_article_text];
    - [writer.py] and [models.py]: [write_csv] over [GeneInfo].

    Conventions of the embedding.
    - A Python [str] is a list of characters ([pystr]).  Character
      classification ([str.strip], [str.lower], [str.isupper], [\s], [\w],
      [\d]) follows Python on the code points below 128; the development
      speaks about ASCII text.
    - Python integers are [Z].
    - A Python function that may raise returns a [result]; the network is an
      oracle indexed by a clock, so that two identical requests may receive
      different answers, and every function that talks to the network
      threads the clock.
    - A list of gene dictionaries is a list of records; the dictionaries are
      distinct objects (as [extract_genes] builds them), so an in-place
      update of one gene is an update at its index. *)

From Stdlib Require Import ZArith QArith Qabs Lqa Ascii String Sorted.
From stdpp Require Import base tactics option list gmap strings pretty.

Local Open Scope Z_scope.
Set Warnings "-clear-no-such-hyp".

(** ** Part I. The embedding *)

(** *** Python strings *)

Abbreviation pystr := (list ascii).

(** [s "text"] is the Python literal ["text"]. *)
Definition s (x : string) : pystr := list_ascii_of_string x.

Definition code (c : ascii) : N := N_of_ascii c.

Definition in_range (lo hi : N) (c : ascii) : bool :=
  (N.leb lo (code c) && N.leb (code c) hi)%bool.

(** [str.isspace] on one character: TAB..CR, FS..US and the space. *)
Definition is_space (c : ascii) : bool :=
  (in_range 9 13 c || in_range 28 32 c)%bool.

Definition is_upper_char (c : ascii) : bool := in_range 65 90 c.
Definition is_lower_char (c : ascii) : bool := in_range 97 122 c.
Definition is_digit_char (c : ascii) : bool := in_range 48 57 c.

(** [\w]: letters, digits and the underscore. *)
Definition is_word_char (c : ascii) : bool :=
  (is_upper_char c || is_lower_char c || is_digit_char c
   || N.eqb (code c) 95)%bool.

Definition lower_char (c : ascii) : ascii :=
  if is_upper_char c then ascii_of_N (code c + 32) else c.

Definition upper_char (c : ascii) : ascii :=
  if is_lower_char c then ascii_of_N (code c - 32) else c.

Definition lower (x : pystr) : pystr := map lower_char x.
Definition upper (x : pystr) : pystr := map upper_char x.

(** [str.isupper]: at least one cased character, and no lowercase one. *)
Definition isupper (x : pystr) : bool :=
  (existsb is_upper_char x && negb (existsb is_lower_char x))%bool.

(** [str.isdigit]: non-empty and made of digits. *)
Definition isdigit (x : pystr) : bool :=
  match x with
  | [] => false
  | _ => forallb is_digit_char x
  end.

Definition str_eqb (x y : pystr) : bool := bool_decide (x = y).

Definition mem_char (c : ascii) (cs : pystr) : bool :=
  existsb (fun d => bool_decide (c = d)) cs.

Fixpoint lstrip_by (p : ascii -> bool) (x : pystr) : pystr :=
  match x with
  | [] => []
  | c :: x' => if p c then lstrip_by p x' else x
  end.

Definition rstrip_by (p : ascii -> bool) (x : pystr) : pystr :=
  rev (lstrip_by p (rev x)).

Definition strip_by (p : ascii -> bool) (x : pystr) : pystr :=
  rstrip_by p (lstrip_by p x).

(** [x.strip()] *)
Definition strip (x : pystr) : pystr := strip_by is_space x.

(** [x.strip(chars)] *)
Definition strip_chars (chars : pystr) (x : pystr) : pystr :=
  strip_by (fun c => mem_char c chars) x.

Fixpoint startswith (p x : pystr) : bool :=
  match p, x with
  | [], _ => true
  | _ :: _, [] => false
  | a :: p', b :: x' => (bool_decide (a = b) && startswith p' x')%bool
  end.

Definition endswith (suf x : pystr) : bool := startswith (rev suf) (rev x).

(** [x[:-n]] for a positive [n]. *)
Definition drop_last (n : nat) (x : pystr) : pystr :=
  take (length x - n)%nat x.

(** [x[n:]] *)
Definition slice_from (n : nat) (x : pystr) : pystr := drop n x.

(** [x[a:b]] for offsets [0 <= a], [0 <= b]. *)
Definition slice (a b : Z) (x : pystr) : pystr :=
  take (Z.to_nat b - Z.to_nat a)%nat (drop (Z.to_nat a) x).

(** The text before the first occurrence of [pat] in [x], and the text
    after it. *)
Fixpoint find_first (pat x : pystr) : option (pystr * pystr) :=
  if startswith pat x then Some ([], drop (length pat) x)
  else match x with
       | [] => None
       | c :: x' =>
           match find_first pat x' with
           | Some (before, after) => Some (c :: before, after)
           | None => None
           end
       end.

(** [pat in x] *)
Definition contains (pat x : pystr) : bool :=
  match find_first pat x with Some _ => true | None => false end.

(** [x.rsplit(kw, 1)[0]]: the text before the last occurrence of [kw], the
    whole of [x] when [kw] does not occur. *)
Definition rsplit1_head (kw x : pystr) : pystr :=
  match find_first (rev kw) (rev x) with
  | Some (_, after) => rev after
  | None => x
  end.

(** [x.split(sep)] for a one-character separator. *)
Fixpoint split_char (sep : ascii) (x : pystr) : list pystr :=
  match x with
  | [] => [[]]
  | c :: x' =>
      if bool_decide (c = sep) then [] :: split_char sep x'
      else match split_char sep x' with
           | p :: ps => (c :: p) :: ps
           | [] => [[c]]
           end
  end.

(** The separator class of the pattern [[\s-]+]. *)
Definition is_sep (c : ascii) : bool :=
  (is_space c || bool_decide (c = "-"%char))%bool.

(** [re.split(r"[\s-]+", x)]: the pieces between the maximal runs of
    separators.  [in_run] tells that the previous character was a separator,
    so that the run it belongs to has already closed a piece. *)
Fixpoint split_runs (in_run : bool) (x : pystr) : list pystr :=
  match x with
  | [] => [[]]
  | c :: x' =>
      if is_sep c then
        if in_run then split_runs true x' else [] :: split_runs true x'
      else match split_runs false x' with
           | p :: ps => (c :: p) :: ps
           | [] => [[c]]
           end
  end.

Definition re_split_ws_hyphen (x : pystr) : list pystr := split_runs false x.

(** *** gene_metadata.py: the generic-term filter *)

Definition GENERIC_PARTS : list pystr :=
  [ s "single"; s "system"; s "single-system"; s "multi"; s "multisystem";
    s "multi-system"; s "systemic"; s "common"; s "rare"; s "genetic";
    s "hereditary"; s "familial"; s "unknown";
    s "autosomal"; s "dominant"; s "recessive"; s "tall"; s "stature";
    s "short" ].

Definition in_strs (x : pystr) (l : list pystr) : bool :=
  existsb (str_eqb x) l.

Definition all_generic (parts : list pystr) : bool :=
  forallb (fun part => in_strs part GENERIC_PARTS) parts.

(** The acronym special case: [orig] ends with [" syndrome"] and what
    stands before it is, once stripped of [" ,;:-"], a non-empty upper-case
    string. *)
Definition acronym_syndrome (orig : pystr) : bool :=
  if endswith (s " syndrome") orig then
    let prefix := strip_chars (s " ,;:-") (drop_last (length (s " syndrome")) orig) in
    (negb (str_eqb prefix []) && isupper prefix)%bool
  else false.

(** One turn of the loop over [("disease", "syndrome", "disorder")]:
    [true] when the turn returns [True]. *)
Definition generic_suffix (t kw : pystr) : bool :=
  if endswith kw t then
    let prefix := strip_chars (s " -;,") (rsplit1_head kw t) in
    if negb (str_eqb prefix []) then all_generic (re_split_ws_hyphen prefix)
    else true
  else false.

Definition _is_generic (term : pystr) : bool :=
  let orig := strip term in
  let t := lower orig in
  if acronym_syndrome orig then false
  else if in_strs t [s "disease"; s "syndrome"; s "disorder"] then true
  else if existsb (generic_suffix t) [s "disease"; s "syndrome"; s "disorder"]
       then true
  else
    let parts := re_split_ws_hyphen t in
    if (Nat.leb (length parts) 2 && all_generic parts)%bool then true
    else false.

(** [sep.join(ws)] *)
Fixpoint join (sep : pystr) (ws : list pystr) : pystr :=
  match ws with
  | [] => []
  | [w] => w
  | w :: ws' => w ++ sep ++ join sep ws'
  end.

(** The three keywords of the loop in [_is_generic]. *)
Definition KEYWORDS : list pystr := [s "disease"; s "syndrome"; s "disorder"].

(** A lowercase text that neither starts nor ends with a blank or a
    punctuation mark: it starts and ends with a lowercase letter and holds
    no uppercase letter. *)
Definition tidy (x : pystr) : bool :=
  (match x with c :: _ => is_lower_char c | [] => false end
   && match rev x with d :: _ => is_lower_char d | [] => false end
   && forallb (fun c => negb (is_upper_char c)) x)%bool.

(** *** Exceptions and the network *)

Inductive exn :=
  | AttributeError | TypeError | KeyError | IndexError | StopIteration
  | ValueError (msg : pystr)
  | RuntimeError (msg : pystr)
  | RequestException   (* raised by [requests.get]: connection, timeout *)
  | HTTPError          (* raised by [raise_for_status] *)
  | JSONDecodeError    (* raised by [resp.json()], with a message of its own;
                          in Python a subclass of [ValueError] *).

(** The exceptions that [except ValueError] catches. *)
Definition is_value_error (e : exn) : bool :=
  match e with
  | ValueError _ | JSONDecodeError => true
  | _ => false
  end.

Inductive result (A : Type) :=
  | Ok (a : A)
  | Raise (e : exn).
Arguments Ok {A} a.
Arguments Raise {A} e.

Definition bind {A B} (r : result A) (k : A -> result B) : result B :=
  match r with
  | Ok a => k a
  | Raise e => Raise e
  end.

Notation "'try!' x := r 'in' k" := (bind r (fun x => k))
  (at level 10, x name, r at level 100, k at level 200).

(** Decoded JSON values; the numbers are the integers. *)
#[warnings="-register-all"]
Inductive json :=
  | JNull
  | JBool (b : bool)
  | JNum (n : Z)
  | JStr (x : pystr)
  | JList (l : list json)
  | JDict (kv : list (pystr * json)).

(** What [requests.get] hands back: [json_body] is what [resp.json()]
    decodes, [None] when decoding raises. *)
Record Response := {
  status_code : Z;
  text : pystr;
  json_body : option json
}.

Inductive outcome :=
  | Failed               (* [requests.get] raised *)
  | Got (r : Response).

Record Request := {
  url : pystr;
  params : list (pystr * pystr);
  headers : list (pystr * pystr)
}.

(** The network answers the request made at a given tick of the clock. *)
Definition Network := nat -> Request -> outcome.

(** *** gene_metadata.py: is_valid_disease_name *)

Definition EUTILS_ESEARCH : pystr :=
  s "https://eutils.ncbi.nlm.nih.gov/entrez/eutils/esearch.fcgi".

Definition medgen_request (query : pystr) : Request :=
  {| url := EUTILS_ESEARCH;
     params := [(s "db", s "medgen"); (s "term", query)];
     headers := [] |}.

Definition mesh_request (query : pystr) : Request :=
  {| url := EUTILS_ESEARCH;
     params := [(s "db", s "mesh"); (s "term", query ++ s "[MeSH Terms]")];
     headers := [] |}.

Definition ols_request (query : pystr) : Request :=
  {| url := s "https://www.ebi.ac.uk/ols/api/search";
     params := [(s "q", query); (s "ontology", s "doid")];
     headers := [] |}.

(** [resp.status_code == 200 and '<Id>' in resp.text], [False] when the
    request raised. *)
Definition eutils_confirms (o : outcome) : bool :=
  match o with
  | Got r => (Z.eqb (status_code r) 200 && contains (s "<Id>") (text r))%bool
  | Failed => false
  end.

(** [d.get(key, default)] *)
Fixpoint assoc_get (key : pystr) (kv : list (pystr * json)) : option json :=
  match kv with
  | [] => None
  | (k, v) :: kv' => if str_eqb k key then Some v else assoc_get key kv'
  end.

Definition py_get (d : json) (key : pystr) (default : json) : result json :=
  match d with
  | JDict kv => Ok (match assoc_get key kv with Some v => v | None => default end)
  | _ => Raise AttributeError
  end.

(** [v > 0] *)
Definition py_gt_zero (v : json) : result bool :=
  match v with
  | JNum n => Ok (0 <? n)
  | JBool b => Ok b
  | _ => Raise TypeError
  end.

(** The body of the third [try] block once the response is there. *)
Definition ols_numfound_positive (r : Response) : result bool :=
  match json_body r with
  | None => Raise JSONDecodeError
  | Some data =>
      try! resp := py_get data (s "response") (JDict []) in
      try! n := py_get resp (s "numFound") (JNum 0) in
      py_gt_zero n
  end.

Definition ols_confirms (o : outcome) : bool :=
  match o with
  | Got r =>
      if Z.eqb (status_code r) 200 then
        match ols_numfound_positive r with
        | Ok b => b
        | Raise _ => false
        end
      else false
  | Failed => false
  end.

(** The verdict and the clock after the lookups that were made. *)
Definition is_valid_disease_name (net : Network) (term : pystr) (t : nat)
  : bool * nat :=
  let query := strip term in
  if str_eqb query [] then (false, t)
  else if eutils_confirms (net t (medgen_request query)) then (true, S t)
  else if eutils_confirms (net (S t) (mesh_request query)) then (true, S (S t))
  else if ols_confirms (net (S (S t)) (ols_request query)) then (true, S (S (S t)))
  else (false, S (S (S t))).

(** *** gene_metadata.py: associate_diseases *)

Record Gene := {
  symbol : pystr;
  hgnc_id : option Z;
  mentions : list (Z * Z);
  diseases : option (gset pystr)   (* the key is absent until first used *)
}.

Record Span := {
  start_char : Z;
  end_char : Z
}.

(** A NER span: [ent_sent] is [ent.sent]. *)
Record Ent := {
  label_ : pystr;
  ent_text : pystr;
  ent_start : Z;
  ent_end : Z;
  ent_sent : Span
}.

Record Doc := {
  sents : list Span;
  ents : list Ent
}.

(** [m_start >= sent_start and m_end <= sent_end] *)
Definition inside (sp : Span) (m : Z * Z) : bool :=
  (Z.geb m.1 (start_char sp) && Z.leb m.2 (end_char sp))%bool.

Definition has_mention_in (sp : Span) (g : Gene) : bool :=
  existsb (inside sp) (mentions g).

(** The genes of the sentence, each with its position in [genes]. *)
Definition genes_in_sentence (sp : Span) (genes : list Gene)
  : list (nat * Gene) :=
  List.filter (fun ig => has_mention_in sp ig.2) (imap pair genes).

(** The mention at which the inner loop breaks. *)
Definition first_mention_in (sp : Span) (g : Gene) : option (Z * Z) :=
  List.find (inside sp) (mentions g).

(** [(a + b) / 2]: a half-integer, which the floating-point division gives
    exactly for every offset a text can have; the distances are compared as
    rationals. *)
Definition midpoint (a b : Z) : Q := (inject_Z (a + b) / 2)%Q.

Definition Qltb (x y : Q) : bool :=
  Z.ltb (Qnum x * QDen y) (Qnum y * QDen x).

(** [dist < min_distance], where [None] is [float('inf')]. *)
Definition below (dist : Q) (min_distance : option Q) : bool :=
  match min_distance with
  | None => true
  | Some m => Qltb dist m
  end.

Definition closest_step (sp : Span) (disease_center : Q)
  (st : option nat * option Q) (ig : nat * Gene) : option nat * option Q :=
  match first_mention_in sp ig.2 with
  | Some (m_start, m_end) =>
      let gene_center := midpoint m_start m_end in
      let dist := Qabs (gene_center - disease_center)%Q in
      if below dist st.2 then (Some ig.1, Some dist) else st
  | None => st
  end.

Definition closest_gene (sp : Span) (disease_center : Q)
  (gis : list (nat * Gene)) : option nat :=
  (fold_left (closest_step sp disease_center) gis (None, None)).1.

(** [gene.setdefault("diseases", set()).add(disease_name)] *)
Definition add_disease (disease_name : pystr) (g : Gene) : Gene :=
  {| symbol := symbol g;
     hgnc_id := hgnc_id g;
     mentions := mentions g;
     diseases := Some (default ∅ (diseases g) ∪ {[ disease_name ]}) |}.

Definition link (disease_name : pystr) (i : nat) (genes : list Gene)
  : list Gene :=
  alter (add_disease disease_name) i genes.

(** [{gene["symbol"] for gene in genes for (ms, me) in gene["mentions"]
      if ms >= start and me <= end}] *)
Definition symbols_in (sp : Span) (genes : list Gene) : gset pystr :=
  list_to_set
    (flat_map (fun g => map (fun _ => symbol g)
                          (List.filter (inside sp) (mentions g))) genes).

(** [next(g for g in genes if g["symbol"] == sym)], as a position. *)
Definition first_with_symbol (sym : pystr) (genes : list Gene) : option nat :=
  fst <$> list_find (fun g => symbol g = sym) genes.

(** The gene an adjacent sentence gives: [len(symbols) == 1], then [pop]
    and [next].  The search of [next] cannot fail on a symbol that comes
    from [genes] (lemma [unique_gene_None]), so [None] means that the
    sentence does not hold exactly one symbol. *)
Definition unique_gene (sp : Span) (genes : list Gene) : option nat :=
  match elements (symbols_in sp genes) with
  | [sym] => first_with_symbol sym genes
  | _ => None
  end.

(** The position of the first sentence that starts at [sent_start]. *)
Definition sent_index (sentences : list Span) (sent_start : Z) : option nat :=
  fst <$> list_find (fun sp => start_char sp = sent_start) sentences.

Definition linked_from_prev (sentences : list Span) (genes : list Gene)
  (i : nat) : option nat :=
  if Nat.ltb 0 i then
    match sentences !! (i - 1)%nat with
    | Some prev_sent => unique_gene prev_sent genes
    | None => None
    end
  else None.

Definition linked_from_next (sentences : list Span) (genes : list Gene)
  (i : nat) : option nat :=
  if Z.ltb (Z.of_nat i) (Z.of_nat (length sentences) - 1) then
    match sentences !! (i + 1)%nat with
    | Some next_sent => unique_gene next_sent genes
    | None => None
    end
  else None.

Definition linked_gene (sentences : list Span) (genes : list Gene) (i : nat)
  : option nat :=
  match linked_from_prev sentences genes i with
  | Some j => Some j
  | None => linked_from_next sentences genes i
  end.

(** The body of the loop for an entity that passed the three filters. *)
Definition link_entity (sentences : list Span) (genes : list Gene)
  (ent : Ent) (disease_name : pystr) : list Gene :=
  let sp := ent_sent ent in
  let gis := genes_in_sentence sp genes in
  match gis with
  | _ :: _ =>
      let disease_center := midpoint (ent_start ent) (ent_end ent) in
      match closest_gene sp disease_center gis with
      | Some i => link disease_name i genes
      | None => genes
      end
  | [] =>
      match sent_index sentences (start_char sp) with
      | None => genes
      | Some i =>
          match linked_gene sentences genes i with
          | Some j => link disease_name j genes
          | None => genes
          end
      end
  end.

(** [ent.text.strip().strip('.,;:')] *)
Definition disease_name_of (ent : Ent) : pystr :=
  strip_chars (s ".,;:") (strip (ent_text ent)).

(** One turn of the loop over [doc.ents]. *)
Definition process_entity (net : Network) (sentences : list Span)
  (st : list Gene * nat) (ent : Ent) : list Gene * nat :=
  let (genes, t) := st in
  if negb (str_eqb (label_ ent) (s "DISEASE")) then (genes, t)
  else
    let disease_name := disease_name_of ent in
    if (str_eqb disease_name [] || _is_generic disease_name)%bool then (genes, t)
    else
      let (valid, t') := is_valid_disease_name net disease_name t in
      if negb valid then (genes, t')
      else (link_entity sentences genes ent disease_name, t').

Definition associate_diseases (net : Network) (genes : list Gene) (doc : Doc)
  (t : nat) : list Gene * nat :=
  fold_left (process_entity net (sents doc)) (ents doc) (genes, t).

(** *** gene_metadata.py: the HGNC, NCBI and Ensembl fetchers *)

(** [requests.get(...)] at clock [t]. *)
Definition requests_get (net : Network) (req : Request) (t : nat)
  : result Response * nat :=
  (match net t req with
   | Got r => Ok r
   | Failed => Raise RequestException
   end, S t).

(** [resp.raise_for_status()] raises on the 4xx and 5xx codes. *)
Definition raise_for_status (r : Response) : result unit :=
  if (Z.leb 400 (status_code r) && Z.ltb (status_code r) 600)%bool
  then Raise HTTPError else Ok tt.

(** [resp.json()] *)
Definition resp_json (r : Response) : result json :=
  match json_body r with
  | Some v => Ok v
  | None => Raise JSONDecodeError
  end.

(** Truth value of a decoded value. *)
Definition py_truthy (v : json) : bool :=
  match v with
  | JNull => false
  | JBool b => b
  | JNum n => negb (Z.eqb n 0)
  | JStr x => negb (str_eqb x [])
  | JList l => match l with [] => false | _ => true end
  | JDict kv => match kv with [] => false | _ => true end
  end.

(** [v[0]]; the keys of a decoded object are strings, never [0]. *)
Definition py_index0 (v : json) : result json :=
  match v with
  | JList (x :: _) => Ok x
  | JList [] => Raise IndexError
  | JStr (c :: _) => Ok (JStr [c])
  | JStr [] => Raise IndexError
  | JDict _ => Raise KeyError
  | _ => Raise TypeError
  end.

Definition hgnc_request (path : pystr) : Request :=
  {| url := s "https://rest.genenames.org/" ++ path;
     params := [];
     headers := [(s "Accept", s "application/json")] |}.

Definition _hgnc_api (net : Network) (path : pystr) (t : nat)
  : result json * nat :=
  let (got, t') := requests_get net (hgnc_request path) t in
  (try! resp := got in
   try! _ := raise_for_status resp in
   resp_json resp, t').

(** [docs = data.get("response", {}).get("docs", []);
     return docs[0] if docs else {}] *)
Definition first_doc (data : json) : result json :=
  try! resp := py_get data (s "response") (JDict []) in
  try! docs := py_get resp (s "docs") (JList []) in
  if py_truthy docs then py_index0 docs else Ok (JDict []).

Definition fetch_hgnc_by_symbol (net : Network) (symbol : pystr) (t : nat)
  : result json * nat :=
  let (got, t') := _hgnc_api net (s "fetch/symbol/" ++ symbol) t in
  match got with
  | Raise _ => (Ok (JDict []), t')
  | Ok data => (first_doc data, t')
  end.

(** The argument of [fetch_hgnc_by_id]: the caller passes the integer id of
    the gene record or the empty string. *)
Inductive hgnc_arg :=
  | IdInt (n : Z)
  | IdStr (x : pystr).

(** [str(hgnc_id)] *)
Definition hgnc_arg_str (a : hgnc_arg) : pystr :=
  match a with
  | IdInt n => s (pretty n)
  | IdStr x => x
  end.

(** [not hgnc_id] *)
Definition hgnc_arg_falsy (a : hgnc_arg) : bool :=
  match a with
  | IdInt n => Z.eqb n 0
  | IdStr x => str_eqb x []
  end.

(** The id as it goes into the path: prefixed with ["HGNC:"] unless it
    already is. *)
Definition prefixed_id (hgnc_id : hgnc_arg) : pystr :=
  if negb (startswith (s "HGNC:") (hgnc_arg_str hgnc_id))
  then s "HGNC:" ++ hgnc_arg_str hgnc_id
  else hgnc_arg_str hgnc_id.

Definition fetch_hgnc_by_id (net : Network) (hgnc_id : hgnc_arg) (t : nat)
  : result json * nat :=
  if hgnc_arg_falsy hgnc_id then (Ok (JDict []), t)
  else
    let hgnc_id := prefixed_id hgnc_id in
    let (got, t') := _hgnc_api net (s "fetch/hgnc_id/" ++ hgnc_id) t in
    match got with
    | Raise _ => (Ok (JDict []), t')
    | Ok data => (first_doc data, t')
    end.

(** [aliases_str.split(",")] on a decoded value. *)
Definition py_split_comma (v : json) : result (list pystr) :=
  match v with
  | JStr x => Ok (split_char "," x)
  | _ => Raise AttributeError
  end.

(** What follows the [try] block of [fetch_ncbi_aliases]. *)
Definition aliases_of (data : json) (entrez_id : pystr) : result (list pystr) :=
  try! res := py_get data (s "result") (JDict []) in
  try! result := py_get res entrez_id (JDict []) in
  try! aliases_str := py_get result (s "otheraliases") (JStr []) in
  if negb (py_truthy aliases_str) then Ok []
  else
    try! pieces := py_split_comma aliases_str in
    Ok (map strip (List.filter (fun alias => negb (str_eqb (strip alias) []))
                               pieces)).

Definition esummary_request (entrez_id : pystr) : Request :=
  {| url := s "https://eutils.ncbi.nlm.nih.gov/entrez/eutils/esummary.fcgi"
            ++ s "?db=gene&id=" ++ entrez_id ++ s "&retmode=json";
     params := []; headers := [] |}.

Definition fetch_ncbi_aliases (net : Network) (entrez_id : pystr) (t : nat)
  : result (list pystr) * nat :=
  let (got, t') := requests_get net (esummary_request entrez_id) t in
  match (try! resp := got in resp_json resp) with
  | Raise _ => (Ok [], t')
  | Ok data => (aliases_of data entrez_id, t')
  end.

(** What follows the [try] block of [fetch_coordinates_by_ensembl];
    [py_str] is Python's [str()] on decoded values, which the f-string
    applies to the three fields. *)
Definition coordinates_of (py_str : json -> pystr) (data : json)
  : result pystr :=
  if negb (py_truthy data) then Ok []
  else
    try! seq_region := py_get data (s "seq_region_name") JNull in
    try! start := py_get data (s "start") JNull in
    try! end_ := py_get data (s "end") JNull in
    if (py_truthy seq_region && py_truthy start && py_truthy end_)%bool
    then Ok (s "chr" ++ py_str seq_region ++ s ":" ++ py_str start
             ++ s "-" ++ py_str end_)
    else Ok [].

Definition ensembl_request (ensembl_id assembly : pystr) : Request :=
  let base_url :=
    if (str_eqb (lower assembly) (s "hg19")
        || str_eqb (lower assembly) (s "grch37"))%bool
    then s "https://grch37.rest.ensembl.org"
    else s "https://rest.ensembl.org" in
  {| url := base_url ++ s "/lookup/id/" ++ ensembl_id
            ++ s "?content-type=application/json";
     params := []; headers := [] |}.

Definition fetch_coordinates_by_ensembl (py_str : json -> pystr)
  (net : Network) (ensembl_id assembly : pystr) (t : nat)
  : result pystr * nat :=
  let (got, t') := requests_get net (ensembl_request ensembl_id assembly) t in
  match got with
  | Raise _ => (Ok [], t')
  | Ok resp =>
      if negb (Z.eqb (status_code resp) 200) then (Ok [], t')
      else match resp_json resp with
           | Raise _ => (Ok [], t')
           | Ok data => (coordinates_of py_str data, t')
           end
  end.

(** *** gene_extractor.py: the two patterns *)

(** The class [[A-Z0-9-]], and what it matches under [re.IGNORECASE]. *)
Definition is_sym_char (c : ascii) : bool :=
  (is_upper_char c || is_digit_char c || bool_decide (c = "-"%char))%bool.

Definition is_sym_char_ci (c : ascii) : bool :=
  (is_sym_char c || is_lower_char c)%bool.

(** Length of the longest prefix whose characters all pass [p]: what a
    greedy [p*] takes. *)
Fixpoint run_length (p : ascii -> bool) (x : pystr) : nat :=
  match x with
  | c :: x' => if p c then S (run_length p x') else O
  | [] => O
  end.

(** [\b] between two neighbours; [None] is an end of the text. *)
Definition is_word_opt (c : option ascii) : bool :=
  match c with
  | Some c => is_word_char c
  | None => false
  end.

Definition word_boundary (before after : option ascii) : bool :=
  xorb (is_word_opt before) (is_word_opt after).

(** A literal matched under [re.IGNORECASE] at the head of [x]. *)
Definition startswith_ci (p x : pystr) : bool :=
  startswith (lower p) (lower x).

(** [\s+]: the length of the run of blanks, which must not be empty. *)
Definition spaces1 (x : pystr) : option nat :=
  let n := run_length is_space x in
  if Nat.eqb n 0 then None else Some n.

(** [explicit_pattern] tried at one position: [prev] is the character before
    it, [x] the text from it on.
    [\b([A-Z0-9-]+)\s*\([^)]*HGNC:(\d+)\)].
    Each greedy run is followed by a character outside its class, so it
    never gives a character back; the closing parenthesis is the first one
    after the opening one, and the digits are the ones that end the text
    between the two.  The result is the length of group 1 (which starts the
    match), the offset and the length of group 2, and the length of the
    match. *)
Definition match_explicit (prev : option ascii) (x : pystr)
  : option (nat * nat * nat * nat) :=
  if negb (word_boundary prev (head x)) then None
  else
    let n1 := run_length is_sym_char x in
    if Nat.eqb n1 0 then None
    else
      let r1 := drop n1 x in
      let n2 := run_length is_space r1 in
      match drop n2 r1 with
      | c :: r3 =>
          if negb (bool_decide (c = "("%char)) then None
          else
            let n3 := run_length (fun c => negb (bool_decide (c = ")"%char))) r3 in
            match drop n3 r3 with
            | [] => None
            | _ :: _ =>
                let seg := take n3 r3 in
                let nd := run_length is_digit_char (rev seg) in
                if Nat.eqb nd 0 then None
                else if endswith (s "HGNC:") (take (n3 - nd) seg)
                     then Some (n1, n1 + n2 + 1 + (n3 - nd), nd,
                                n1 + n2 + 1 + n3 + 1)%nat
                     else None
            end
      | [] => None
      end.

(** [([A-Z0-9-]+)\b] under [re.IGNORECASE]: the group takes the whole run
    and gives characters back until a word boundary follows it.
    [longest_bounded m x] tries the lengths [m], [m-1], ..., [1]. *)
Definition boundary_after (m : nat) (x : pystr) : bool :=
  word_boundary (x !! (m - 1)%nat) (x !! m).

Fixpoint longest_bounded (m : nat) (x : pystr) : option nat :=
  match m with
  | O => None
  | S m' => if boundary_after m x then Some m else longest_bounded m' x
  end.

Definition sym_group (x : pystr) : option nat :=
  longest_bounded (run_length is_sym_char_ci x) x.

(** One branch of [(?:the\s+|a\s+)] followed by the group: the offset of the
    group and its length. *)
Definition article_then_symbol (art x : pystr) : option (nat * nat) :=
  if startswith_ci art x then
    let r := drop (length art) x in
    match spaces1 r with
    | Some n =>
        match sym_group (drop n r) with
        | Some m => Some ((length art + n)%nat, m)
        | None => None
        end
    | None => None
    end
  else None.

(** [(?:the\s+|a\s+)?([A-Z0-9-]+)\b]: the branches in the order in which
    the matcher tries them, the empty one last. *)
Definition optional_article_symbol (x : pystr) : option (nat * nat) :=
  match article_then_symbol (s "the") x with
  | Some r => Some r
  | None =>
      match article_then_symbol (s "a") x with
      | Some r => Some r
      | None =>
          match sym_group x with
          | Some m => Some (O, m)
          | None => None
          end
      end
  end.

(** [\s+in\s+(?:the\s+|a\s+)?([A-Z0-9-]+)\b] *)
Definition after_keyword (x : pystr) : option (nat * nat) :=
  match spaces1 x with
  | Some n1 =>
      let r := drop n1 x in
      if startswith_ci (s "in") r then
        let r2 := drop 2 r in
        match spaces1 r2 with
        | Some n2 =>
            match optional_article_symbol (drop n2 r2) with
            | Some (off, m) => Some ((n1 + 2 + n2 + off)%nat, m)
            | None => None
            end
        | None => None
        end
      else None
  | None => None
  end.

Definition keyword_then (kw x : pystr) : option (nat * nat) :=
  if startswith_ci kw x then
    match after_keyword (drop (length kw) x) with
    | Some (off, m) => Some ((length kw + off)%nat, m)
    | None => None
    end
  else None.

Definition CONTEXT_KEYWORDS : list pystr :=
  [ s "variant"; s "variants"; s "mutation"; s "mutations"; s "VUS"; s "VUSs" ].

Fixpoint first_keyword (kws : list pystr) (x : pystr) : option (nat * nat) :=
  match kws with
  | [] => None
  | kw :: kws' =>
      match keyword_then kw x with
      | Some r => Some r
      | None => first_keyword kws' x
      end
  end.

(** [context_pattern] tried at one position: the offset and the length of
    group 1, which ends the match. *)
Definition match_context (x : pystr) : option (nat * nat) :=
  first_keyword CONTEXT_KEYWORDS x.

(** [pattern.finditer(text)]: the matches from left to right, without
    overlap.  [m] is the pattern tried at one position and gives, with its
    groups, the length of the match; [skip] counts the characters of the
    last match that are still to be passed. *)
Fixpoint finditer {A} (m : option ascii -> pystr -> option (A * nat))
  (skip : nat) (prev : option ascii) (pos : nat) (x : pystr)
  : list (nat * A) :=
  match x with
  | [] => []
  | c :: x' =>
      match skip with
      | S k => finditer m k (Some c) (S pos) x'
      | O =>
          match m prev x with
          | Some (a, total) =>
              (pos, a) :: finditer m (total - 1) (Some c) (S pos) x'
          | None => finditer m 0 (Some c) (S pos) x'
          end
      end
  end.

(** A match of [explicit_pattern]: the spans of its two groups. *)
Record ExplicitMatch := {
  e_start1 : Z; e_end1 : Z;
  e_start2 : Z; e_end2 : Z
}.

(** A match of [context_pattern]: the span of its group. *)
Record ContextMatch := {
  c_start1 : Z; c_end1 : Z
}.

Definition explicit_matches (text : pystr) : list ExplicitMatch :=
  map (fun '(pos, (n1, off2, n2)) =>
         {| e_start1 := Z.of_nat pos;
            e_end1 := Z.of_nat (pos + n1);
            e_start2 := Z.of_nat (pos + off2);
            e_end2 := Z.of_nat (pos + off2 + n2) |})
      (finditer (fun prev x =>
                   match match_explicit prev x with
                   | Some (n1, off2, n2, total) => Some ((n1, off2, n2), total)
                   | None => None
                   end) 0 None 0 text).

Definition context_matches (text : pystr) : list ContextMatch :=
  map (fun '(pos, (off, n)) =>
         {| c_start1 := Z.of_nat (pos + off);
            c_end1 := Z.of_nat (pos + off + n) |})
      (finditer (fun _ x =>
                   match match_context x with
                   | Some (off, n) => Some ((off, n), (off + n)%nat)
                   | None => None
                   end) 0 None 0 text).

(** *** gene_extractor.py: extract_genes *)

(** [int(digits)] on a run of decimal digits (taken without the limit that
    recent interpreters put on the number of digits). *)
Definition int_of_digits (x : pystr) : Z :=
  fold_left (fun acc c => 10 * acc + Z.of_N (code c - 48)) x 0.

(** The dictionary [genes]: the keys in the order of their insertion. *)
Abbreviation GeneDict := (list (pystr * Gene)).

Fixpoint dict_get (key : pystr) (d : GeneDict) : option Gene :=
  match d with
  | [] => None
  | (k, v) :: d' => if str_eqb k key then Some v else dict_get key d'
  end.

(** [d[key] = v]: in place when the key is there, at the end otherwise. *)
Fixpoint dict_set (key : pystr) (v : Gene) (d : GeneDict) : GeneDict :=
  match d with
  | [] => [(key, v)]
  | (k, w) :: d' =>
      if str_eqb k key then (k, v) :: d' else (k, w) :: dict_set key v d'
  end.

Definition append_mention (g : Gene) (m : Z * Z) : Gene :=
  {| symbol := symbol g; hgnc_id := hgnc_id g;
     mentions := mentions g ++ [m]; diseases := diseases g |}.

(** One turn of the loop over the explicit matches. *)
Definition add_explicit (text : pystr) (genes : GeneDict) (m : ExplicitMatch)
  : GeneDict :=
  let symbol_ := upper (slice (e_start1 m) (e_end1 m) text) in
  let hgnc := int_of_digits (slice (e_start2 m) (e_end2 m) text) in
  let sym_start := e_start1 m in
  let sym_end := e_end1 m in
  let g :=
    match dict_get symbol_ genes with
    | None =>
        {| symbol := symbol_; hgnc_id := Some hgnc; mentions := [];
           diseases := None |}
    | Some g =>
        match hgnc_id g with
        | None =>
            {| symbol := symbol g; hgnc_id := Some hgnc;
               mentions := mentions g; diseases := diseases g |}
        | Some _ => g
        end
    end in
  dict_set symbol_ (append_mention g (sym_start, sym_end)) genes.

(** One turn of the loop over the context matches. *)
Definition add_context (text : pystr) (genes : GeneDict) (m : ContextMatch)
  : GeneDict :=
  let symbol_ := upper (slice (c_start1 m) (c_end1 m) text) in
  let sym_start := c_start1 m in
  let sym_end := c_end1 m in
  let g :=
    match dict_get symbol_ genes with
    | None =>
        {| symbol := symbol_; hgnc_id := None; mentions := [];
           diseases := None |}
    | Some g => g
    end in
  dict_set symbol_ (append_mention g (sym_start, sym_end)) genes.

Definition extract_genes (text : pystr) : list Gene :=
  let genes := fold_left (add_explicit text) (explicit_matches text) [] in
  let genes := fold_left (add_context text) (context_matches text) genes in
  map (fun '(symbol_, data) =>
         {| symbol := symbol_; hgnc_id := hgnc_id data;
            mentions := mentions data; diseases := None |})
      genes.

(** *** article_retriever.py: get_article_text *)

(** The library calls made on the downloaded text:
    [body_text] parses the XML and joins the text nodes of the first element
    whose tag ends with ["body"] ([None] when parsing raises [ParseError],
    [Some None] when there is no such element);
    [strip_tags] is [re.sub(r"<[^>]+>", "", x)];
    [collapse_ws] is [re.sub(r"\s+", " ", x)];
    [py_str] is [str()] on a decoded value, as an f-string applies it. *)
Record TextLib := {
  body_text : pystr -> option (option pystr);
  strip_tags : pystr -> pystr;
  collapse_ws : pystr -> pystr;
  py_str : json -> pystr
}.

Definition BAD_IDENTIFIER : pystr :=
  s "Identifier must be a PMID or PMCID (e.g. 'PMID1234' or 'PMC1234').".

Inductive accession :=
  | Pmcid (x : pystr)
  | Pmid (x : pystr).

(** The chain of tests on the stripped identifier. *)
Definition identify (ident : pystr) : result accession :=
  if startswith (s "PMC") (upper ident) then Ok (Pmcid ident)
  else if startswith (s "PMID") (upper ident) then Ok (Pmid (slice_from 4 ident))
  else if isdigit ident then Ok (Pmid ident)
  else Raise (ValueError BAD_IDENTIFIER).

Definition search_request (pmid : pystr) : Request :=
  {| url := s "https://www.ebi.ac.uk/europepmc/webservices/rest/search"
            ++ s "?query=EXT_ID:" ++ pmid ++ s "%20AND%20SRC:MED&format=json";
     params := []; headers := [] |}.

Definition fulltext_request (pmcid : pystr) : Request :=
  {| url := s "https://www.ebi.ac.uk/europepmc/webservices/rest/" ++ pmcid
            ++ s "/fullTextXML";
     params := []; headers := [] |}.

(** The mapping of a PMID to a PMCID through Europe PMC. *)
Definition pmcid_of_pmid (lib : TextLib) (net : Network) (pmid : pystr)
  (t : nat) : result pystr * nat :=
  let (got, t') := requests_get net (search_request pmid) t in
  (try! resp := got in
   try! _ := raise_for_status resp in
   try! data := resp_json resp in
   try! result_list := py_get data (s "resultList") (JDict []) in
   try! results := py_get result_list (s "result") (JList []) in
   if negb (py_truthy results)
   then Raise (RuntimeError (s "No Europe PMC match for PMID " ++ pmid ++ s "."))
   else
     try! first := py_index0 results in
     try! pmcid := py_get first (s "pmcid") JNull in
     if negb (py_truthy pmcid)
     then Raise (RuntimeError (s "No PMCID found for PMID " ++ pmid ++ s "."))
     else Ok (py_str lib pmcid), t').

(** The download of the full text and the extraction of the body. *)
Definition download_body (lib : TextLib) (net : Network) (pmcid : pystr)
  (t : nat) : result pystr * nat :=
  let (got, t') := requests_get net (fulltext_request pmcid) t in
  (try! resp := got in
   try! _ := raise_for_status resp in
   let xml_content := text resp in
   match body_text lib xml_content with
   | None => Ok (strip_tags lib xml_content)
   | Some None => Ok []
   | Some (Some body) => Ok (strip (collapse_ws lib body))
   end, t').

Definition get_article_text (lib : TextLib) (net : Network)
  (identifier : pystr) (t : nat) : result pystr * nat :=
  let ident := strip identifier in
  match identify ident with
  | Raise e => (Raise e, t)
  | Ok (Pmcid pmcid) => download_body lib net pmcid t
  | Ok (Pmid pmid) =>
      let (mapped, t') := pmcid_of_pmid lib net pmid t in
      match mapped with
      | Raise e => (Raise e, t')
      | Ok pmcid => download_body lib net pmcid t'
      end
  end.

(** *** models.py and writer.py *)

Module Models.

Record GeneInfo := {
  hgnc_id : pystr;
  gene_symbol : pystr;
  gene_name : pystr;
  gene_aliases : pystr;
  coord_hg38 : pystr;
  coord_hg19 : pystr;
  disease : pystr
}.

End Models.

(** The files, each as the rows written to it so far. *)
Abbreviation Files := (gmap pystr (list (list pystr))).

(** [open(path, "w", ...)]: the file is created or emptied. *)
Definition open_w (path : pystr) (fs : Files) : Files := <[path := []]> fs.

(** [writer.writerow(row)] on the writer of the file at [path]. *)
Definition writerow (path : pystr) (fs : Files) (row : list pystr) : Files :=
  alter (fun rows => rows ++ [row]) path fs.

Definition write_csv (rows : list Models.GeneInfo) (path : pystr) (fs : Files)
  : Files :=
  let headers :=
    [ s "HGNC ID"; s "Gene Symbol"; s "HGNC Gene Name";
      s "Gene Aliases"; s "hg38 Coordinates"; s "hg19 Coordinates";
      s "Disease" ] in
  let fs := open_w path fs in
  let fs := writerow path fs headers in
  fold_left
    (fun fs gene =>
       writerow path fs
         [ Models.hgnc_id gene; Models.gene_symbol gene;
           Models.gene_name gene; Models.gene_aliases gene;
           Models.coord_hg38 gene; Models.coord_hg19 gene;
           Models.disease gene ])
    rows fs.

(** *** csv_to_db.py: split_values *)

(** [split_values(text)]: [None] is a missing value, for which [pd.isna]
    holds. *)
Definition split_values (text : option pystr) : list pystr :=
  match text with
  | None => []
  | Some x => map strip (split_char ";" x)
  end.

(** *** csv_to_db.py: extract_hgnc_number *)

(** [x.replace(old, "")] for a non-empty [old]: the occurrences are taken
    from left to right without overlap; [skip] counts the characters of the
    occurrence being removed that are still to be passed. *)
Fixpoint remove_all_go (old : pystr) (skip : nat) (x : pystr) : pystr :=
  match x with
  | [] => []
  | c :: x' =>
      match skip with
      | S k => remove_all_go old k x'
      | O =>
          if startswith old x then remove_all_go old (length old - 1) x'
          else c :: remove_all_go old 0 x'
      end
  end.

Definition remove_all (old x : pystr) : pystr := remove_all_go old 0 x.

(** The digit part of a decimal literal: digits, with single underscores
    between digits. *)
Definition int_literal_ok (x : pystr) : bool :=
  (match x with c :: _ => is_digit_char c | [] => false end
   && match rev x with c :: _ => is_digit_char c | [] => false end
   && forallb (fun c => is_digit_char c || bool_decide (c = "_"%char)) x
   && negb (contains (s "__") x))%bool.

(** The blanks that [int()] drops around a literal: TAB..CR and the
    space. *)
Definition is_int_space (c : ascii) : bool :=
  (in_range 9 13 c || in_range 32 32 c)%bool.

(** [int(x)] on a string: blanks around are dropped, a sign may come first;
    [None] when [ValueError] is raised. *)
Definition py_int (x : pystr) : option Z :=
  let y := strip_by is_int_space x in
  let '(negative, body) :=
    match y with
    | c :: b =>
        if bool_decide (c = "-"%char) then (true, b)
        else if bool_decide (c = "+"%char) then (false, b)
        else (false, y)
    | [] => (false, y)
    end in
  if int_literal_ok body
  then Some ((if negative then -1 else 1)
             * int_of_digits (List.filter is_digit_char body))
  else None.

Definition extract_hgnc_number (hgnc_id : pystr) : option Z :=
  py_int (remove_all (s "HGNC:") hgnc_id).

(** *** Notions used by the statements about the linker *)

(** [g'] is [g] with possibly more disease names. *)
Definition extends (g g' : Gene) : Prop :=
  symbol g' = symbol g /\ hgnc_id g' = hgnc_id g /\ mentions g' = mentions g /\
  default ∅ (diseases g) ⊆ default ∅ (diseases g').

(** The entity passes the three filters of the loop at clock [t]. *)
Definition accepted (net : Network) (ent : Ent) (t : nat) : Prop :=
  label_ ent = s "DISEASE" /\
  disease_name_of ent <> [] /\
  _is_generic (disease_name_of ent) = false /\
  (is_valid_disease_name net (disease_name_of ent) t).1 = true.

(** No mention of any gene lies inside the span. *)
Definition no_gene_inside (sp : Span) (genes : list Gene) : Prop :=
  forall g m, g ∈ genes -> m ∈ mentions g -> inside sp m = false.

(** Some mention of a gene called [sym] lies inside the span. *)
Definition mentioned_in (sp : Span) (genes : list Gene) (sym : pystr) : Prop :=
  exists g m, g ∈ genes /\ m ∈ mentions g /\ inside sp m = true /\ symbol g = sym.

(** The mentions inside the span belong to exactly one gene symbol, [sym]. *)
Definition exactly_one_symbol (sp : Span) (genes : list Gene) (sym : pystr)
  : Prop :=
  mentioned_in sp genes sym /\
  forall sym', mentioned_in sp genes sym' -> sym' = sym.

(** The order of the positions in a list of numbered genes. *)
Definition fst_lt (x y : nat * Gene) : Prop := (x.1 < y.1)%nat.

(** Distance of a mention's midpoint to the midpoint of the entity. *)
Definition mention_dist (ent : Ent) (m : Z * Z) : Q :=
  Qabs (midpoint m.1 m.2 - midpoint (ent_start ent) (ent_end ent))%Q.

(** [d] is the distance of the in-sentence mention of [g] that lies nearest
    to the entity. *)
Definition nearest_dist (ent : Ent) (g : Gene) (d : Q) : Prop :=
  (exists m, m ∈ mentions g /\ inside (ent_sent ent) m = true /\
             (mention_dist ent m == d)%Q) /\
  forall m', m' ∈ mentions g -> inside (ent_sent ent) m' = true ->
             (d <= mention_dist ent m')%Q.

(** The same-sentence rule read with the nearest mention of each gene: the
    entity is linked to the gene whose nearest in-sentence mention is the
    closest, the earlier gene winning a tie. *)
Definition links_nearest_mention_gene (net : Network) (sentences : list Span)
  (genes : list Gene) (ent : Ent) (t : nat) : Prop :=
  exists i g d,
    genes !! i = Some g /\ nearest_dist ent g d /\
    (process_entity net sentences (genes, t) ent).1
      = link (disease_name_of ent) i genes /\
    forall j g' d', genes !! j = Some g' -> nearest_dist ent g' d' ->
      (d <= d')%Q /\ ((d' == d)%Q -> (i <= j)%nat).




(** The sentence before the [i]-th holds exactly one gene symbol, [sym]. *)
Definition prev_unique (sentences : list Span) (genes : list Gene) (i : nat)
  (sym : pystr) : Prop :=
  exists k prev_sent,
    i = S k /\ sentences !! k = Some prev_sent /\
    exactly_one_symbol prev_sent genes sym.

(** The sentence after the [i]-th holds exactly one gene symbol, [sym]. *)
Definition next_unique (sentences : list Span) (genes : list Gene) (i : nat)
  (sym : pystr) : Prop :=
  exists next_sent,
    sentences !! S i = Some next_sent /\
    exactly_one_symbol next_sent genes sym.

(** *** Notions used by the statements about the fetchers *)

(** A network failure or a parse failure: the request raises, or the body
    of the response does not decode. *)
Definition fetch_failure (o : outcome) : Prop :=
  o = Failed \/ exists r, o = Got r /\ json_body r = None.

(** None of the four fetchers ever raises. *)
Definition fetchers_never_raise : Prop :=
  forall py_str net t symbol hgnc_id entrez_id ensembl_id assembly,
    (exists v, (fetch_hgnc_by_symbol net symbol t).1 = Ok v) /\
    (exists v, (fetch_hgnc_by_id net hgnc_id t).1 = Ok v) /\
    (exists v, (fetch_ncbi_aliases net entrez_id t).1 = Ok v) /\
    (exists v, (fetch_coordinates_by_ensembl py_str net ensembl_id assembly t).1
               = Ok v).

(** *** Notions used by the statements about the extractor *)

(** The offsets [a], [b] delimit a non-empty piece of the text. *)
Definition span_ok (text : pystr) (a b : Z) : Prop :=
  0 <= a /\ a < b /\ b <= Z.of_nat (length text).

(** The mention [m], kept under the key [key], is a piece of the text that
    reads [key] once uppercased. *)
Definition good_mention (text key : pystr) (m : Z * Z) : Prop :=
  span_ok text m.1 m.2 /\ upper (slice m.1 m.2 text) = key.

(** The invariant of the dictionary [genes] in [extract_genes]. *)
Definition dict_ok (text : pystr) (d : GeneDict) : Prop :=
  NoDup d.*1 /\
  forall k g, (k, g) ∈ d -> Forall (good_mention text k) (mentions g).

(** A group found in the text from some position on lies within it: [r]
    is the offset and the length of the group. *)
Definition fits (r : nat * nat) (x : pystr) : Prop :=
  (1 <= r.2 /\ r.1 + r.2 <= length x)%nat.

(** Every offset pair of every record delimits the very symbol of the
    record in the text. *)
Definition mentions_spell_symbol (text : pystr) : Prop :=
  forall g a b, g ∈ extract_genes text -> (a, b) ∈ mentions g ->
                slice a b text = symbol g.

(** *** Notions used by further statements about the extractor *)

(** The symbol and the id that a match of [explicit_pattern] gives, and the
    symbol that a match of [context_pattern] gives. *)
Definition explicit_symbol (text : pystr) (m : ExplicitMatch) : pystr :=
  upper (slice (e_start1 m) (e_end1 m) text).

Definition explicit_id (text : pystr) (m : ExplicitMatch) : Z :=
  int_of_digits (slice (e_start2 m) (e_end2 m) text).

Definition context_symbol (text : pystr) (m : ContextMatch) : pystr :=
  upper (slice (c_start1 m) (c_end1 m) text).

(** The matches of each pattern that give the symbol [key], from left to
    right. *)
Definition explicit_for (text key : pystr) : list ExplicitMatch :=
  List.filter (fun m => str_eqb (explicit_symbol text m) key)
              (explicit_matches text).

Definition context_for (text key : pystr) : list ContextMatch :=
  List.filter (fun m => str_eqb (context_symbol text m) key)
              (context_matches text).

Definition explicit_span (m : ExplicitMatch) : Z * Z := (e_start1 m, e_end1 m).
Definition context_span (m : ContextMatch) : Z * Z := (c_start1 m, c_end1 m).

(** What the dictionary holds under a key: the mentions and the id. *)
Definition mentions_of (key : pystr) (d : GeneDict) : list (Z * Z) :=
  match dict_get key d with
  | Some g => mentions g
  | None => []
  end.

Definition id_of (key : pystr) (d : GeneDict) : option Z :=
  match dict_get key d with
  | Some g => hgnc_id g
  | None => None
  end.

(** The group of a match found from some position on is made of characters
    of the class: [r] is the offset and the length of the group. *)
Definition in_class (r : nat * nat) (x : pystr) : Prop :=
  (r.2 <= run_length is_sym_char_ci (drop r.1 x))%nat.

(** The text holds ASCII characters only. *)
Definition is_ascii_text (text : pystr) : Prop :=
  Forall (fun c => (code c < 128)%N) text.

(** Every key of the dictionary holds at least one mention. *)
Definition dict_nonempty (d : GeneDict) : Prop :=
  forall k g, dict_get k d = Some g -> mentions g <> [].

(** *** Sample inputs *)

(** A network on which every lookup of the NCBI databases succeeds. *)
Definition net_yes : Network :=
  fun _ _ => Got {| status_code := 200; text := s "<Id>1</Id>";
                    json_body := None |}.

(** A network on which every request raises. *)
Definition net_down : Network := fun _ _ => Failed.

Definition gene_of (sym : string) (ms : list (Z * Z)) : Gene :=
  {| symbol := s sym; hgnc_id := None; mentions := ms; diseases := None |}.

Definition span (a b : Z) : Span := {| start_char := a; end_char := b |}.

Definition disease_at (txt : string) (a b : Z) (sp : Span) : Ent :=
  {| label_ := s "DISEASE"; ent_text := s txt; ent_start := a; ent_end := b;
     ent_sent := sp |}.

(** One sentence; AAA is mentioned far from the disease first and right
    next to it later, BBB once in between. *)
Definition far_then_near : list Gene :=
  [gene_of "AAA" [(0, 2); (50, 52)]; gene_of "BBB" [(30, 32)]].

Definition marfan_ent : Ent := disease_at "Marfan syndrome." 53 55 (span 0 60).

(** Three sentences; the disease stands in the middle one, which holds no
    gene. *)
Definition three_sents : list Span := [span 0 20; span 21 40; span 41 60].

Definition middle_ent : Ent := disease_at "Marfan syndrome" 25 30 (span 21 40).

(** AAA alone in the first sentence, BBB alone in the last. *)
Definition one_before_one_after : list Gene :=
  [gene_of "AAA" [(5, 8)]; gene_of "BBB" [(45, 48)]].

(** AAA and BBB both in the first sentence, nothing in the last. *)
Definition two_before_none_after : list Gene :=
  [gene_of "AAA" [(5, 8)]; gene_of "BBB" [(10, 13)]].

(** A network that answers every request with the JSON array [[1]]. *)
Definition net_array : Network :=
  fun _ _ => Got {| status_code := 200; text := s "[1]";
                    json_body := Some (JList [JNum 1]) |}.

(** A gene named in lowercase after "mutation in". *)
Definition lowercase_text : pystr := s "a mutation in tp53".

(** A gene given once with its HGNC id and once in a context. *)
Definition two_mentions_text : pystr :=
  s "TP53 (HGNC:11998) is altered; variants in the TP53 gene".

(** An answer of the NCBI summary service for the gene 7157. *)
Definition net_aliases : Network :=
  fun _ _ =>
    Got {| status_code := 200; text := [];
           json_body :=
             Some (JDict [(s "result",
                           JDict [(s "7157",
                                   JDict [(s "otheraliases",
                                           JStr (s "BCC7, LFS1,, P53 ,"))])])]) |}.

(** Library calls that find no body in the text they are given. *)
Definition lib_plain : TextLib :=
  {| body_text := fun _ => Some None;
     strip_tags := fun x => x;
     collapse_ws := fun x => x;
     py_str := fun _ => [] |}.

(** ** Part II. Properties *)

Example generic_disease : _is_generic (s "disease") = true.
Proof. reflexivity. Qed.

(** *** Frame: [associate_diseases] only adds disease names *)

Lemma extends_refl g : extends g g.
Proof. by repeat split. Qed.

Lemma extends_trans g1 g2 g3 : extends g1 g2 -> extends g2 g3 -> extends g1 g3.
Proof.
  intros (Hs & Hh & Hm & Hd) (Hs' & Hh' & Hm' & Hd').
  repeat split; try congruence. set_solver.
Qed.

Lemma add_disease_extends name g : extends g (add_disease name g).
Proof. repeat split; simpl. set_solver. Qed.

Lemma Forall2_extends_refl genes : Forall2 extends genes genes.
Proof. induction genes; constructor; auto using extends_refl. Qed.

Lemma Forall2_extends_trans l1 l2 l3 :
  Forall2 extends l1 l2 -> Forall2 extends l2 l3 -> Forall2 extends l1 l3.
Proof.
  intros H12; revert l3; induction H12; intros l3 H23; inversion H23; subst;
    constructor; eauto using extends_trans.
Qed.

Lemma link_extends name i genes : Forall2 extends genes (link name i genes).
Proof.
  unfold link. revert i; induction genes as [|g genes IH]; intros [|i]; simpl;
    constructor; auto using extends_refl, add_disease_extends, Forall2_extends_refl.
  apply IH.
Qed.

Lemma link_entity_extends sentences genes ent name :
  Forall2 extends genes (link_entity sentences genes ent name).
Proof.
  unfold link_entity.
  repeat case_match; auto using link_extends, Forall2_extends_refl.
Qed.

Lemma process_entity_extends net sentences genes t ent :
  Forall2 extends genes (process_entity net sentences (genes, t) ent).1.
Proof.
  unfold process_entity.
  repeat case_match; simpl; auto using link_entity_extends, Forall2_extends_refl.
Qed.

Lemma fold_process_extends net sentences es genes t :
  Forall2 extends genes
    (fold_left (process_entity net sentences) es (genes, t)).1.
Proof.
  revert genes t; induction es as [|e es IH]; intros genes t; cbn [fold_left].
  - apply Forall2_extends_refl.
  - destruct (process_entity net sentences (genes, t) e) as [genes' t'] eqn:E.
    eapply Forall2_extends_trans; [|apply IH].
    pose proof (process_entity_extends net sentences genes t e) as H.
    by rewrite E in H.
Qed.

(** C10.  Whatever the network answers and whatever the document holds,
    [associate_diseases] leaves the list of genes with the same genes in the
    same order: position by position the symbol, the HGNC id and the mentions
    are the ones of the input, and every disease name that was in a gene's
    set is still there. *)
Theorem associate_diseases_frame net genes doc t :
  Forall2 extends genes (associate_diseases net genes doc t).1.
Proof. apply fold_process_extends. Qed.

(** *** The loop body, by cases on the filters *)

Lemma str_eqb_eq (x y : pystr) : str_eqb x y = true <-> x = y.
Proof. unfold str_eqb. by rewrite bool_decide_eq_true. Qed.

Lemma str_eqb_neq (x y : pystr) : str_eqb x y = false <-> x <> y.
Proof. unfold str_eqb. by rewrite bool_decide_eq_false. Qed.

Lemma process_entity_accepted net sentences genes t ent :
  accepted net ent t ->
  process_entity net sentences (genes, t) ent
  = (link_entity sentences genes ent (disease_name_of ent),
     (is_valid_disease_name net (disease_name_of ent) t).2).
Proof.
  intros (Hl & Hn & Hg & Hv). unfold process_entity.
  apply str_eqb_eq in Hl. apply str_eqb_neq in Hn. rewrite Hl, Hn, Hg.
  cbn [negb orb].
  destruct (is_valid_disease_name net (disease_name_of ent) t) as [v t'].
  simpl in Hv. by subst v.
Qed.

Lemma process_entity_rejected net sentences genes t ent :
  ~ accepted net ent t ->
  (process_entity net sentences (genes, t) ent).1 = genes.
Proof.
  intros Hna. unfold process_entity.
  destruct (str_eqb (label_ ent) (s "DISEASE")) eqn:Hl; [|done].
  destruct (str_eqb (disease_name_of ent) []) eqn:Hn; [done|].
  destruct (_is_generic (disease_name_of ent)) eqn:Hg; [done|].
  cbn [negb orb].
  destruct (is_valid_disease_name net (disease_name_of ent) t) as [v t'] eqn:Hv.
  destruct v; [|done].
  exfalso. apply Hna. apply str_eqb_eq in Hl. apply str_eqb_neq in Hn.
  repeat split; try done. by rewrite Hv.
Qed.

(** *** Same-sentence linking *)

Lemma Qltb_lt x y : Qltb x y = true <-> (x < y)%Q.
Proof. unfold Qltb, Qlt. apply Z.ltb_lt. Qed.

Lemma has_mention_in_first sp g :
  has_mention_in sp g = true <-> exists m, first_mention_in sp g = Some m.
Proof.
  unfold has_mention_in, first_mention_in.
  induction (mentions g) as [|m ms IH]; simpl.
  - split; [done | by intros [? ?]].
  - destruct (inside sp m); simpl; [|done]. split; eauto.
Qed.

Lemma has_mention_in_elem sp g :
  has_mention_in sp g = true <-> exists m, m ∈ mentions g /\ inside sp m = true.
Proof.
  unfold has_mention_in. rewrite existsb_exists.
  by setoid_rewrite list_elem_of_In.
Qed.

Lemma elem_of_genes_in_sentence sp genes i g :
  (i, g) ∈ genes_in_sentence sp genes <->
  genes !! i = Some g /\ has_mention_in sp g = true.
Proof.
  unfold genes_in_sentence.
  rewrite list_elem_of_In, filter_In, <- list_elem_of_In, elem_of_lookup_imap.
  simpl. split.
  - intros [(j & y & Heq & Hj) Hm]. by simplify_eq.
  - intros [Hi Hm]. eauto.
Qed.

Lemma imap_pair_sorted (genes : list Gene) k :
  StronglySorted fst_lt (imap (fun i g => ((k + i)%nat, g)) genes).
Proof.
  revert k; induction genes as [|g genes IH]; intros k; simpl; constructor.
  - specialize (IH (S k)).
    erewrite imap_ext; [exact IH|]. intros; simpl. f_equal; lia.
  - apply Forall_forall. intros [j y] Hin.
    apply elem_of_lookup_imap in Hin as (i & y' & Heq & _).
    simplify_eq/=. unfold fst_lt; simpl. lia.
Qed.

Lemma StronglySorted_filter {A} (R : A -> A -> Prop) (p : A -> bool) l :
  StronglySorted R l -> StronglySorted R (List.filter p l).
Proof.
  induction 1 as [|x l Hs IH Hall]; simpl; [constructor|].
  destruct (p x); [|done]. constructor; [done|].
  apply Forall_forall. intros y Hy.
  apply list_elem_of_In, filter_In in Hy as [Hy _].
  rewrite Forall_forall in Hall. by apply Hall, list_elem_of_In.
Qed.

Lemma genes_in_sentence_sorted sp genes :
  StronglySorted fst_lt (genes_in_sentence sp genes).
Proof.
  apply StronglySorted_filter. apply (imap_pair_sorted genes 0).
Qed.

Lemma closest_step_some sp ent st ig m :
  first_mention_in sp ig.2 = Some m ->
  closest_step sp (midpoint (ent_start ent) (ent_end ent)) st ig
  = if below (mention_dist ent m) st.2
    then (Some ig.1, Some (mention_dist ent m)) else st.
Proof. unfold closest_step. intros ->. by destruct m. Qed.

(** The loop stops on the first gene of the list whose first in-sentence
    mention is at the least distance: the genes before it are strictly
    farther, the genes after it are not nearer. *)
Lemma closest_fold_spec ent gis :
  let sp := ent_sent ent in
  let center := midpoint (ent_start ent) (ent_end ent) in
  (forall x, x ∈ gis -> is_Some (first_mention_in sp x.2)) ->
  gis <> [] ->
  exists l1 i g m l2,
    gis = l1 ++ (i, g) :: l2 /\
    first_mention_in sp g = Some m /\
    fold_left (closest_step sp center) gis (None, None)
      = (Some i, Some (mention_dist ent m)) /\
    (forall x m', x ∈ l1 -> first_mention_in sp x.2 = Some m' ->
                  (mention_dist ent m < mention_dist ent m')%Q) /\
    (forall x m', x ∈ l2 -> first_mention_in sp x.2 = Some m' ->
                  (mention_dist ent m <= mention_dist ent m')%Q).
Proof.
  intros sp center.
  induction gis as [|x l IH] using rev_ind; [done|].
  intros Hall _.
  destruct (Hall x) as [mx Hmx]; [set_solver|].
  rewrite fold_left_app. cbn [fold_left].
  destruct l as [|y l'].
  - (* the first turn: anything is below infinity *)
    simpl. subst center. rewrite (closest_step_some _ _ _ _ _ Hmx). simpl.
    destruct x as [i g]. exists [], i, g, mx, []. repeat split; try done.
    all: intros ? ? Hin; by apply elem_of_nil in Hin.
  - destruct IH as (l1 & i & g & m & l2 & Heq & Hm & Hfold & Hbefore & Hafter);
      [intros z Hz; apply Hall, elem_of_app; by left | done |].
    rewrite Hfold. subst center. rewrite (closest_step_some _ _ _ _ _ Hmx).
    cbn [snd below].
    destruct (Qltb (mention_dist ent mx) (mention_dist ent m)) eqn:Hlt.
    + (* strictly nearer: the new gene takes over *)
      apply Qltb_lt in Hlt. destruct x as [ix gx].
      exists (y :: l'), ix, gx, mx, []. repeat split; try done.
      * intros z mz Hz Hmz. rewrite Heq in Hz.
        apply elem_of_app in Hz as [Hz|Hz].
        -- eapply Qlt_trans; [exact Hlt | by eapply Hbefore].
        -- apply elem_of_cons in Hz as [->|Hz].
           ++ simpl in Hmz. by simplify_eq.
           ++ eapply Qlt_le_trans; [exact Hlt | by eapply Hafter].
      * intros ? ? Hin; by apply elem_of_nil in Hin.
    + (* not nearer: the gene found so far stays *)
      assert (mention_dist ent m <= mention_dist ent mx)%Q as Hle.
      { apply Qnot_lt_le. intros Hc. apply Qltb_lt in Hc. congruence. }
      exists l1, i, g, m, (l2 ++ [x]). repeat split; try done.
      * rewrite Heq. by rewrite <- app_assoc.
      * intros z mz Hz Hmz.
        apply elem_of_app in Hz as [Hz|Hz]; [by eapply Hafter|].
        apply list_elem_of_singleton in Hz as ->. by simplify_eq.
Qed.

Lemma sorted_after (l1 l2 : list (nat * Gene)) x y :
  StronglySorted fst_lt (l1 ++ x :: l2) -> y ∈ l2 -> (x.1 < y.1)%nat.
Proof.
  induction l1 as [|z l1 IH]; simpl; intros Hs Hy.
  - apply StronglySorted_inv in Hs as [_ Hall].
    rewrite Forall_forall in Hall. by apply Hall.
  - apply StronglySorted_inv in Hs as [Hs _]. by apply IH.
Qed.

(** C1, as the code has it.  For an entity that passed the filters and whose
    sentence holds a mention of some gene, the loop links the disease name to
    a gene of that sentence; each gene counts with the FIRST of its mentions
    that lies in the sentence, the linked gene is one whose first in-sentence
    mention has its midpoint at the least distance from the midpoint of the
    entity, and among genes at that same least distance it is the earliest
    of the list. *)
Theorem same_sentence_links_closest_first_mention net sentences genes ent t :
  accepted net ent t ->
  (exists g m, g ∈ genes /\ m ∈ mentions g /\ inside (ent_sent ent) m = true) ->
  exists i g m,
    genes !! i = Some g /\
    first_mention_in (ent_sent ent) g = Some m /\
    (process_entity net sentences (genes, t) ent).1
      = link (disease_name_of ent) i genes /\
    forall j g' m',
      genes !! j = Some g' -> first_mention_in (ent_sent ent) g' = Some m' ->
      (mention_dist ent m <= mention_dist ent m')%Q /\
      ((mention_dist ent m' == mention_dist ent m)%Q -> (i <= j)%nat).
Proof.
  intros Hacc (g0 & m0 & Hg0 & Hm0 & Hin0).
  rewrite (process_entity_accepted _ _ _ _ _ Hacc). cbn [fst].
  unfold link_entity.
  set (sp := ent_sent ent).
  set (gis := genes_in_sentence sp genes).
  assert (gis <> []) as Hne.
  { apply list_elem_of_lookup in Hg0 as [i0 Hi0].
    assert ((i0, g0) ∈ gis) as Hin.
    { apply elem_of_genes_in_sentence. split; [done|].
      apply has_mention_in_elem. eauto. }
    intros Heq. rewrite Heq in Hin. by apply elem_of_nil in Hin. }
  assert (forall x, x ∈ gis -> is_Some (first_mention_in sp x.2)) as Hall.
  { intros [i g] Hx. apply elem_of_genes_in_sentence in Hx as [_ Hx].
    apply has_mention_in_first in Hx as [m Hm]. by exists m. }
  destruct (closest_fold_spec ent gis Hall Hne)
    as (l1 & i & g & m & l2 & Heq & Hm & Hfold & Hbefore & Hafter).
  fold sp in Hfold, Hm, Hbefore, Hafter.
  unfold closest_gene. rewrite Hfold. cbn [fst].
  destruct gis as [|x gis'] eqn:Egis; [done|].
  assert ((i, g) ∈ genes_in_sentence sp genes) as Hig.
  { fold gis. rewrite Egis, Heq. set_solver. }
  apply elem_of_genes_in_sentence in Hig as [Hi _].
  exists i, g, m. split; [done|]. split; [done|]. split; [done|].
  intros j g' m' Hj' Hm'. split.
  - (* no gene of the sentence is nearer *)
    assert ((j, g') ∈ x :: gis') as Hj.
    { rewrite <- Egis. apply elem_of_genes_in_sentence. split; [done|].
      apply has_mention_in_first. eauto. }
    rewrite Heq in Hj. apply elem_of_app in Hj as [Hj|Hj].
    + apply Qlt_le_weak. by eapply (Hbefore (j, g')).
    + apply elem_of_cons in Hj as [Hj|Hj].
      * simplify_eq. apply Qle_refl.
      * by eapply (Hafter (j, g')).
  - (* at equal distance the earlier gene wins *)
    intros Htie.
    assert ((j, g') ∈ x :: gis') as Hj.
    { rewrite <- Egis. apply elem_of_genes_in_sentence. split; [done|].
      apply has_mention_in_first. eauto. }
    rewrite Heq in Hj. apply elem_of_app in Hj as [Hj|Hj].
    + pose proof (Hbefore (j, g') m' Hj Hm') as Hlt.
      rewrite Htie in Hlt. by apply Qlt_irrefl in Hlt.
    + apply elem_of_cons in Hj as [Hj|Hj]; [simplify_eq; lia|].
      pose proof (genes_in_sentence_sorted sp genes) as Hs.
      fold gis in Hs. rewrite Egis, Heq in Hs.
      pose proof (sorted_after _ _ _ _ Hs Hj) as Hlt. simpl in Hlt. lia.
Qed.

Lemma accepted_marfan : accepted net_yes marfan_ent 0.
Proof. repeat split; by vm_compute. Qed.

Lemma marfan_has_candidate :
  exists g m, g ∈ far_then_near /\ m ∈ mentions g /\
              inside (ent_sent marfan_ent) m = true.
Proof.
  exists (gene_of "BBB" [(30, 32)]), (30, 32).
  split; [|split]; [| |done].
  - unfold far_then_near. apply elem_of_cons; right. apply elem_of_cons; by left.
  - apply elem_of_cons; by left.
Qed.

Lemma same_sentence_links_closest_first_mention_witness :
  accepted net_yes marfan_ent 0 /\
  (exists g m, g ∈ far_then_near /\ m ∈ mentions g /\
               inside (ent_sent marfan_ent) m = true) /\
  exists i g m,
    far_then_near !! i = Some g /\
    first_mention_in (ent_sent marfan_ent) g = Some m /\
    (process_entity net_yes [span 0 60] (far_then_near, 0%nat) marfan_ent).1
      = link (disease_name_of marfan_ent) i far_then_near /\
    forall j g' m',
      far_then_near !! j = Some g' ->
      first_mention_in (ent_sent marfan_ent) g' = Some m' ->
      (mention_dist marfan_ent m <= mention_dist marfan_ent m')%Q /\
      ((mention_dist marfan_ent m' == mention_dist marfan_ent m)%Q -> (i <= j)%nat).
Proof.
  split; [exact accepted_marfan|]. split; [exact marfan_has_candidate|].
  apply (same_sentence_links_closest_first_mention
           net_yes [span 0 60] far_then_near marfan_ent 0%nat
           accepted_marfan marfan_has_candidate).
Defined.

(** C1, as the claim words it, fails: with AAA mentioned at 0..2 and at
    50..52, BBB at 30..32 and the disease at 53..55 in one sentence, the
    mention of AAA at 50..52 is the nearest of all, yet the loop measures AAA
    by its first mention and links the disease to BBB. *)
Lemma nearest_mention_reading_fails :
  accepted net_yes marfan_ent 0 /\
  (exists g m, g ∈ far_then_near /\ m ∈ mentions g /\
               inside (ent_sent marfan_ent) m = true) /\
  ~ links_nearest_mention_gene net_yes [span 0 60] far_then_near marfan_ent 0.
Proof.
  split; [exact accepted_marfan|]. split; [exact marfan_has_candidate|].
  intros (i & g & d & Hi & Hn & Hres & Hmin).
  assert ((process_entity net_yes [span 0 60] (far_then_near, 0%nat) marfan_ent).1
          = link (disease_name_of marfan_ent) 1 far_then_near) as Hrun
    by (vm_compute; reflexivity).
  rewrite Hrun in Hres. clear Hrun.
  destruct i as [|[|i]]; [| |done].
  - (* AAA is not the gene that was linked *)
    apply (f_equal (fun l => diseases <$> l !! 0%nat)) in Hres.
    vm_compute in Hres. discriminate.
  - (* BBB was linked, and AAA has a nearer mention *)
    simpl in Hi. injection Hi as <-.
    destruct Hn as [(m & Hm & _ & Hd) _].
    apply list_elem_of_singleton in Hm as ->.
    assert (nearest_dist marfan_ent (gene_of "AAA" [(0, 2); (50, 52)]) 3) as Hnear.
    { split.
      - exists (50, 52). split; [|split]; [|done|done].
        apply elem_of_cons; right. apply elem_of_cons; by left.
      - intros m' Hm' _.
        apply elem_of_cons in Hm' as [->|Hm']; [by vm_compute|].
        apply list_elem_of_singleton in Hm' as ->. by vm_compute. }
    destruct (Hmin 0%nat _ 3%Q eq_refl Hnear) as [Hle _].
    rewrite <- Hd in Hle. by vm_compute in Hle.
Qed.

(** *** Adjacent-sentence linking *)

Lemma elem_of_symbols_in sp genes sym :
  sym ∈ symbols_in sp genes <-> mentioned_in sp genes sym.
Proof.
  unfold symbols_in, mentioned_in.
  rewrite elem_of_list_to_set, list_elem_of_In, in_flat_map.
  split.
  - intros (g & Hg & Hin). apply in_map_iff in Hin as (m & Hsym & Hm).
    apply filter_In in Hm as [Hm Hins].
    exists g, m. by rewrite !list_elem_of_In.
  - intros (g & m & Hg & Hm & Hins & Hsym).
    exists g. rewrite <- list_elem_of_In. split; [done|].
    apply in_map_iff. exists m. split; [done|].
    apply filter_In. by rewrite <- list_elem_of_In.
Qed.

Lemma symbols_in_singleton sp genes sym :
  symbols_in sp genes = {[ sym ]} <-> exactly_one_symbol sp genes sym.
Proof.
  unfold exactly_one_symbol. setoid_rewrite <- elem_of_symbols_in.
  split.
  - intros ->. set_solver.
  - intros [Hin Huniq]. apply set_eq. intros x. set_solver.
Qed.

Lemma elements_one (X : gset pystr) sym :
  elements X = [sym] <-> X = {[ sym ]}.
Proof.
  split.
  - intros He. rewrite <- (list_to_set_elements_L X), He. set_solver.
  - intros ->. apply elements_singleton.
Qed.

Lemma first_with_symbol_found sym genes :
  (exists g, g ∈ genes /\ symbol g = sym) ->
  is_Some (first_with_symbol sym genes).
Proof.
  intros (g & Hg & Hsym). unfold first_with_symbol.
  destruct (list_find (fun g => symbol g = sym) genes) as [[i y]|] eqn:E;
    [by eexists|].
  exfalso. rewrite list_find_None, Forall_forall in E. by apply (E g).
Qed.

Lemma unique_gene_Some sp genes sym :
  exactly_one_symbol sp genes sym ->
  exists j, first_with_symbol sym genes = Some j /\ unique_gene sp genes = Some j.
Proof.
  intros Hone.
  destruct (first_with_symbol_found sym genes) as [j Hj].
  { destruct Hone as [(g & m & Hg & _ & _ & Hs) _]. eauto. }
  exists j. split; [done|].
  unfold unique_gene.
  apply symbols_in_singleton, elements_one in Hone. by rewrite Hone.
Qed.

(** The search of [next] never fails: [unique_gene] is [None] only when the
    sentence does not hold exactly one symbol. *)
Lemma unique_gene_None sp genes :
  unique_gene sp genes = None <->
  ~ exists sym, exactly_one_symbol sp genes sym.
Proof.
  split.
  - intros Hnone [sym Hone].
    destruct (unique_gene_Some _ _ _ Hone) as (j & _ & Hj). congruence.
  - intros Hno. unfold unique_gene.
    destruct (elements (symbols_in sp genes)) as [|sym [|sym' l]] eqn:E;
      [done| |done].
    exfalso. apply Hno. exists sym.
    by apply symbols_in_singleton, elements_one.
Qed.

Lemma no_gene_inside_nil sp genes :
  no_gene_inside sp genes -> genes_in_sentence sp genes = [].
Proof.
  intros Hno.
  destruct (genes_in_sentence sp genes) as [|[i g] l] eqn:E; [done|].
  assert ((i, g) ∈ genes_in_sentence sp genes) as Hin
    by (rewrite E; apply elem_of_cons; by left).
  apply elem_of_genes_in_sentence in Hin as [Hi Hm].
  apply has_mention_in_elem in Hm as (m & Hm & Hins).
  rewrite (Hno g m) in Hins; [done| |done].
  apply list_elem_of_lookup. eauto.
Qed.

(** What the loop does for an accepted entity without a gene in its own
    sentence, once the sentence has been found at position [i]. *)
Lemma process_entity_adjacent net sentences genes ent t i :
  accepted net ent t ->
  no_gene_inside (ent_sent ent) genes ->
  sent_index sentences (start_char (ent_sent ent)) = Some i ->
  (process_entity net sentences (genes, t) ent).1
  = match linked_gene sentences genes i with
    | Some j => link (disease_name_of ent) j genes
    | None => genes
    end.
Proof.
  intros Hacc Hno Hidx.
  rewrite (process_entity_accepted _ _ _ _ _ Hacc). cbn [fst].
  unfold link_entity. by rewrite (no_gene_inside_nil _ _ Hno), Hidx.
Qed.

Lemma linked_from_prev_spec sentences genes i :
  linked_from_prev sentences genes i
  = match i with
    | O => None
    | S k => sp ← sentences !! k; unique_gene sp genes
    end.
Proof.
  unfold linked_from_prev. destruct i as [|k]; [done|].
  replace (S k - 1)%nat with k by lia. simpl.
  by destruct (sentences !! k).
Qed.

Lemma linked_from_next_spec sentences genes i :
  linked_from_next sentences genes i
  = sp ← sentences !! S i; unique_gene sp genes.
Proof.
  unfold linked_from_next. replace (i + 1)%nat with (S i) by lia.
  destruct (sentences !! S i) as [sp|] eqn:E; simpl.
  - apply lookup_lt_Some in E.
    destruct (Z.ltb_spec (Z.of_nat i) (Z.of_nat (length sentences) - 1)); [done|lia].
  - by case_match.
Qed.


Lemma linked_from_prev_None sentences genes i :
  (~ exists sym, prev_unique sentences genes i sym) ->
  linked_from_prev sentences genes i = None.
Proof.
  intros Hno. rewrite linked_from_prev_spec.
  destruct i as [|k]; [done|].
  destruct (sentences !! k) as [sp|] eqn:Hk; [|done]. simpl.
  apply unique_gene_None. intros [sym Hone]. apply Hno.
  exists sym, k, sp. eauto.
Qed.


Lemma linked_gene_None sentences genes i :
  (~ exists sym, prev_unique sentences genes i sym) ->
  (~ exists sym, next_unique sentences genes i sym) ->
  linked_gene sentences genes i = None.
Proof.
  intros Hp Hn. unfold linked_gene.
  rewrite (linked_from_prev_None _ _ _ Hp), linked_from_next_spec.
  destruct (sentences !! S i) as [sp|] eqn:Hi; [|done]. simpl.
  apply unique_gene_None. intros [sym Hone]. apply Hn.
  exists sym, sp. eauto.
Qed.






Lemma no_gene_inside_middle genes :
  Forall (fun g => Forall (fun m => inside (span 21 40) m = false) (mentions g))
         genes ->
  no_gene_inside (ent_sent middle_ent) genes.
Proof.
  intros Hall g m Hg Hm.
  rewrite Forall_forall in Hall. specialize (Hall g Hg).
  rewrite Forall_forall in Hall. by apply Hall.
Qed.


Example adjacent_links_previous :
  (process_entity net_yes three_sents (one_before_one_after, 0%nat) middle_ent).1
  = link (s "Marfan syndrome") 0 one_before_one_after.
Proof. vm_compute. reflexivity. Qed.

Lemma accepted_dec net ent t : accepted net ent t \/ ~ accepted net ent t.
Proof.
  unfold accepted.
  destruct (decide (label_ ent = s "DISEASE")); [|tauto].
  destruct (decide (disease_name_of ent = [])); [tauto|].
  destruct (_is_generic (disease_name_of ent)); [right; intros (_&_&?&_); done|].
  destruct (is_valid_disease_name net (disease_name_of ent) t).1;
    [tauto | right; intros (_&_&_&?); done].
Qed.

(** C3.  Take an entity with no gene mention inside its own sentence.  If
    the sentence before it does not hold exactly one gene symbol (or does not
    exist) and the sentence after it does not either, the entity leaves every
    gene as it was: no disease set gains the name. *)
Theorem no_unique_neighbour_drops net sentences genes ent t :
  no_gene_inside (ent_sent ent) genes ->
  (forall i, sent_index sentences (start_char (ent_sent ent)) = Some i ->
     (~ exists sym, prev_unique sentences genes i sym) /\
     (~ exists sym, next_unique sentences genes i sym)) ->
  (process_entity net sentences (genes, t) ent).1 = genes.
Proof.
  intros Hno Hnone.
  destruct (accepted_dec net ent t) as [Hacc|Hrej];
    [|by apply process_entity_rejected].
  destruct (sent_index sentences (start_char (ent_sent ent))) as [i|] eqn:Hidx.
  - destruct (Hnone i eq_refl) as [Hp Hn].
    rewrite (process_entity_adjacent _ _ _ _ _ _ Hacc Hno Hidx).
    by rewrite (linked_gene_None _ _ _ Hp Hn).
  - rewrite (process_entity_accepted _ _ _ _ _ Hacc). cbn [fst].
    unfold link_entity. by rewrite (no_gene_inside_nil _ _ Hno), Hidx.
Qed.

Lemma two_before_none_after_neighbours i :
  sent_index three_sents (start_char (ent_sent middle_ent)) = Some i ->
  (~ exists sym, prev_unique three_sents two_before_none_after i sym) /\
  (~ exists sym, next_unique three_sents two_before_none_after i sym).
Proof.
  intros Hi. vm_compute in Hi. injection Hi as <-. split.
  - intros (sym & k & sp & Hk & Hsp & Hone).
    injection Hk as <-. injection Hsp as <-.
    eapply (proj1 (unique_gene_None _ _)); [|exists sym; exact Hone].
    vm_compute. reflexivity.
  - intros (sym & sp & Hsp & Hone).
    injection Hsp as <-.
    eapply (proj1 (unique_gene_None _ _)); [|exists sym; exact Hone].
    vm_compute. reflexivity.
Qed.

Lemma no_unique_neighbour_drops_witness :
  no_gene_inside (ent_sent middle_ent) two_before_none_after /\
  (forall i, sent_index three_sents (start_char (ent_sent middle_ent)) = Some i ->
     (~ exists sym, prev_unique three_sents two_before_none_after i sym) /\
     (~ exists sym, next_unique three_sents two_before_none_after i sym)) /\
  (process_entity net_yes three_sents (two_before_none_after, 0%nat) middle_ent).1
  = two_before_none_after.
Proof.
  assert (no_gene_inside (ent_sent middle_ent) two_before_none_after) as Hno.
  { apply no_gene_inside_middle. repeat constructor. }
  split; [exact Hno|]. split; [exact two_before_none_after_neighbours|].
  apply (no_unique_neighbour_drops net_yes three_sents two_before_none_after
           middle_ent 0%nat Hno two_before_none_after_neighbours).
Defined.

(** *** Which spans are considered, and the validity check *)

Lemma link_entity_cases sentences genes ent name :
  link_entity sentences genes ent name = genes \/
  exists j, link_entity sentences genes ent name = link name j genes.
Proof. unfold link_entity. repeat case_match; eauto. Qed.

Lemma link_lookup name j genes i g' :
  link name j genes !! i = Some g' ->
  exists g, genes !! i = Some g /\ (g' = g \/ g' = add_disease name g).
Proof.
  unfold link. intros Hi.
  destruct (decide (j = i)) as [->|Hne].
  - rewrite list_lookup_alter_eq in Hi.
    destruct (genes !! i) as [g|]; [|done]. simpl in Hi. simplify_eq. eauto.
  - rewrite list_lookup_alter_ne in Hi by done. eauto.
Qed.

Lemma is_valid_spec net term t :
  (is_valid_disease_name net term t).1 = true <->
  strip term <> [] /\
  (eutils_confirms (net t (medgen_request (strip term))) = true \/
   eutils_confirms (net (S t) (mesh_request (strip term))) = true \/
   ols_confirms (net (S (S t)) (ols_request (strip term))) = true).
Proof.
  unfold is_valid_disease_name.
  destruct (str_eqb (strip term) []) eqn:He.
  { apply str_eqb_eq in He. simpl. split; [done | by intros [? _]]. }
  apply str_eqb_neq in He.
  destruct (eutils_confirms (net t _)); [simpl; tauto|].
  destruct (eutils_confirms (net (S t) _)); [simpl; tauto|].
  destruct (ols_confirms (net (S (S t)) _)); simpl; [tauto|].
  split; [done|]. intros [_ [?|[?|?]]]; done.
Qed.

(** C5.  An entity changes the genes only if its label is DISEASE, its
    stripped text is non-empty and not generic and the validity check
    succeeds.  The validity check succeeds exactly when one of the three
    lookups made for the (non-empty) query confirms it: MedGen, then MeSH,
    then the doid ontology of OLS.  A lookup that raises does not confirm,
    and when none of the three confirms the entity is skipped. *)
Theorem considered_only_if_valid_disease net sentences genes ent t :
  let name := disease_name_of ent in
  let query := strip name in
  ((process_entity net sentences (genes, t) ent).1 <> genes ->
     label_ ent = s "DISEASE" /\ name <> [] /\ _is_generic name = false /\
     (is_valid_disease_name net name t).1 = true) /\
  ((is_valid_disease_name net name t).1 = true <->
     query <> [] /\
     (eutils_confirms (net t (medgen_request query)) = true \/
      eutils_confirms (net (S t) (mesh_request query)) = true \/
      ols_confirms (net (S (S t)) (ols_request query)) = true)) /\
  (eutils_confirms Failed = false /\ ols_confirms Failed = false /\
   forall r e, ols_numfound_positive r = Raise e -> ols_confirms (Got r) = false) /\
  (eutils_confirms (net t (medgen_request query)) = false ->
   eutils_confirms (net (S t) (mesh_request query)) = false ->
   ols_confirms (net (S (S t)) (ols_request query)) = false ->
   (process_entity net sentences (genes, t) ent).1 = genes).
Proof.
  intros name query. split; [|split; [|split]].
  - intros Hchg. destruct (accepted_dec net ent t) as [Hacc|Hrej]; [exact Hacc|].
    by rewrite process_entity_rejected in Hchg.
  - apply is_valid_spec.
  - split; [done|]. split; [done|].
    intros r e Hr. simpl. rewrite Hr. by destruct (status_code r =? 200).
  - intros H1 H2 H3. apply process_entity_rejected.
    intros (_ & _ & _ & Hv). apply is_valid_spec in Hv as [_ Hv].
    fold name query in Hv. rewrite H1, H2, H3 in Hv. by destruct Hv as [?|[?|?]].
Qed.

Lemma considered_only_if_valid_disease_witness :
  (process_entity net_down three_sents (one_before_one_after, 0%nat) middle_ent).1
  = one_before_one_after.
Proof.
  apply (considered_only_if_valid_disease net_down three_sents
           one_before_one_after middle_ent 0%nat); reflexivity.
Defined.

Example valid_by_ols :
  ols_confirms
    (Got {| status_code := 200; text := [];
            json_body := Some (JDict [(s "response",
                                       JDict [(s "numFound", JNum 3)])]) |})
  = true.
Proof. reflexivity. Qed.

Example blank_name_is_invalid :
  disease_name_of (disease_at ". ." 0 3 (span 0 3)) = s " " /\
  (is_valid_disease_name net_yes (s " ") 0).1 = false.
Proof. split; reflexivity. Qed.

(** *** Strings *)

Lemma startswith_spec p x : startswith p x = true <-> exists q, x = p ++ q.
Proof.
  revert x; induction p as [|a p IH]; intros x; simpl.
  - split; eauto.
  - destruct x as [|b x].
    + split; [done | by intros [q Hq]].
    + rewrite andb_true_iff, bool_decide_eq_true, IH. split.
      * intros [-> [q ->]]. eauto.
      * intros [q Hq]. simplify_eq/=. eauto.
Qed.

Lemma endswith_spec suf x : endswith suf x = true <-> exists p, x = p ++ suf.
Proof.
  unfold endswith. rewrite startswith_spec. split.
  - intros [q Hq]. exists (rev q).
    rewrite <- (rev_involutive x), Hq, rev_app_distr. by rewrite rev_involutive.
  - intros [p ->]. exists (rev p). apply rev_app_distr.
Qed.

Lemma drop_last_app p suf : drop_last (length suf) (p ++ suf) = p.
Proof.
  unfold drop_last. rewrite length_app.
  replace (length p + length suf - length suf)%nat with (length p) by lia.
  by rewrite take_app_length.
Qed.

Lemma find_first_here pat x :
  startswith pat x = true -> find_first pat x = Some ([], drop (length pat) x).
Proof. intros H. destruct x; simpl; by rewrite H. Qed.

Lemma rsplit1_head_app kw p : rsplit1_head kw (p ++ kw) = p.
Proof.
  unfold rsplit1_head. rewrite rev_app_distr, find_first_here.
  - rewrite drop_app_length. apply rev_involutive.
  - apply startswith_spec. eauto.
Qed.

Lemma lstrip_by_keep f c x : f c = false -> lstrip_by f (c :: x) = c :: x.
Proof. intros H. simpl. by rewrite H. Qed.

Lemma rstrip_by_keep f c x : f c = false -> rstrip_by f (x ++ [c]) = x ++ [c].
Proof.
  intros H. unfold rstrip_by. rewrite rev_app_distr. simpl. rewrite H.
  change (c :: rev x) with ([c] ++ rev x).
  by rewrite rev_app_distr, rev_involutive.
Qed.

Lemma lstrip_by_suffix f x : exists y, x = y ++ lstrip_by f x /\ forallb f y = true.
Proof.
  induction x as [|c x (y & Hy & Hall)]; simpl.
  - by exists [].
  - destruct (f c) eqn:Hc.
    + exists (c :: y). simpl. rewrite Hc, Hall. split; [|done]. by f_equal.
    + by exists [].
Qed.

Lemma rstrip_by_prefix f x : exists y, x = rstrip_by f x ++ y /\ forallb f y = true.
Proof.
  unfold rstrip_by. destruct (lstrip_by_suffix f (rev x)) as (y & Hy & Hall).
  exists (rev y). split.
  - rewrite <- rev_app_distr, <- Hy. by rewrite rev_involutive.
  - rewrite forallb_forall in *. intros c Hc. apply Hall. by apply in_rev.
Qed.

(** Stripping characters of a class [f] leaves untouched any test [q] that
    no character of the class passes. *)
Lemma existsb_strip_by f q x :
  (forall c, f c = true -> q c = false) ->
  existsb q (strip_by f x) = existsb q x.
Proof.
  intros Hfq.
  assert (forall y, forallb f y = true -> existsb q y = false) as Hnone.
  { induction y as [|c y IH]; simpl; [done|].
    rewrite andb_true_iff. intros [Hc Hy]. by rewrite (Hfq c Hc), IH. }
  unfold strip_by.
  destruct (lstrip_by_suffix f x) as (y1 & Hy1 & Hall1).
  destruct (rstrip_by_prefix f (lstrip_by f x)) as (y2 & Hy2 & Hall2).
  rewrite Hy1 at 2. rewrite Hy2 at 2.
  rewrite !existsb_app, (Hnone y1 Hall1), (Hnone y2 Hall2).
  simpl. by rewrite orb_false_r.
Qed.

Lemma isupper_strip_by f x :
  (forall c, f c = true -> is_upper_char c = false /\ is_lower_char c = false) ->
  isupper (strip_by f x) = isupper x.
Proof.
  intros H. unfold isupper.
  rewrite !existsb_strip_by; [done| |]; intros c Hc; by apply H.
Qed.

Lemma isupper_nonempty x : isupper x = true -> x <> [].
Proof. by intros H ->. Qed.

(** Cases on a character: every classification is decided by computing. *)
Ltac by_chars c :=
  destruct c as [[] [] [] [] [] [] [] []]; vm_compute; (done || auto).

Lemma space_uncased c :
  is_space c = true -> is_upper_char c = false /\ is_lower_char c = false.
Proof. by_chars c. Qed.

Lemma punct_uncased chars c :
  forallb (fun d => negb (is_upper_char d || is_lower_char d)) chars = true ->
  mem_char c chars = true ->
  is_upper_char c = false /\ is_lower_char c = false.
Proof.
  intros Hall Hc. unfold mem_char in Hc.
  apply existsb_exists in Hc as (d & Hd & Heq).
  apply bool_decide_eq_true in Heq as <-.
  rewrite forallb_forall in Hall. specialize (Hall c Hd).
  apply negb_true_iff, orb_false_iff in Hall. tauto.
Qed.

(** *** Splitting on runs of blanks and hyphens *)

Lemma split_runs_nonempty b x : split_runs b x <> [].
Proof.
  revert b; induction x as [|c x IH]; intros b; simpl; [done|].
  destruct (is_sep c); [destruct b; [apply IH | done]|].
  by destruct (split_runs false x).
Qed.

Lemma split_runs_word b w :
  forallb (fun c => negb (is_sep c)) w = true -> split_runs b w = [w].
Proof.
  revert b; induction w as [|c w IH]; intros b; simpl; [done|].
  rewrite andb_true_iff, negb_true_iff. intros [-> Hw]. by rewrite (IH false Hw).
Qed.

(** The last piece of a text that ends with a separator followed by a word. *)
Lemma split_runs_last b x c w :
  is_sep c = true ->
  forallb (fun c => negb (is_sep c)) w = true ->
  exists ps, split_runs b (x ++ c :: w) = ps ++ [w] /\ (b = false -> ps <> []).
Proof.
  intros Hc Hw. revert b; induction x as [|a x IH]; intros b; simpl.
  - rewrite Hc, (split_runs_word true w Hw).
    destruct b; [by exists [] | by exists [[]]].
  - destruct (is_sep a).
    + destruct (IH true) as (ps & -> & _).
      destruct b; [by exists ps | by exists ([] :: ps)].
    + destruct (IH false) as (ps & -> & Hne).
      destruct ps as [|q ps]; [by destruct Hne|].
      by exists ((a :: q) :: ps).
Qed.

(** A separator after a letter closes the piece the letter belongs to. *)
Lemma split_runs_app b x c sep r :
  is_sep c = false -> is_sep sep = true ->
  split_runs b (x ++ c :: sep :: r)
  = split_runs b (x ++ [c]) ++ split_runs true r.
Proof.
  intros Hc Hsep. revert b; induction x as [|a x IH]; intros b; simpl.
  - by rewrite Hc, Hsep.
  - destruct (is_sep a).
    + destruct b; by rewrite IH.
    + rewrite IH. pose proof (split_runs_nonempty false (x ++ [c])) as Hne.
      by destruct (split_runs false (x ++ [c])).
Qed.

Lemma split_runs_flag c r :
  is_sep c = false -> split_runs true (c :: r) = split_runs false (c :: r).
Proof. intros Hc. simpl. by rewrite Hc. Qed.

Lemma all_generic_app ps qs :
  all_generic (ps ++ qs) = (all_generic ps && all_generic qs)%bool.
Proof. apply forallb_app. Qed.

Lemma lower_app x y : lower (x ++ y) = lower x ++ lower y.
Proof. apply map_app. Qed.

(** The acronym case and the generic splits exclude one another: a text that
    ends with [" syndrome"] has ["syndrome"] as its last piece. *)
Lemma syndrome_not_all_generic orig :
  endswith (s " syndrome") orig = true ->
  all_generic (re_split_ws_hyphen (lower orig)) = false.
Proof.
  intros He. apply endswith_spec in He as [p ->].
  rewrite lower_app. change (lower (s " syndrome")) with (" "%char :: s "syndrome").
  destruct (split_runs_last false (lower p) " "%char (s "syndrome"))
    as (ps & Hps & _); [done|done|].
  unfold re_split_ws_hyphen. rewrite Hps, all_generic_app.
  apply andb_false_iff. by right.
Qed.

Lemma acronym_syndrome_ends orig :
  acronym_syndrome orig = true -> endswith (s " syndrome") orig = true.
Proof. unfold acronym_syndrome. by destruct (endswith (s " syndrome") orig). Qed.

(** One or two generic parts make a generic term. *)
Lemma generic_parts_generic term :
  let parts := re_split_ws_hyphen (lower (strip term)) in
  (length parts <= 2)%nat -> all_generic parts = true ->
  _is_generic term = true.
Proof.
  intros parts Hlen Hall. unfold _is_generic.
  destruct (acronym_syndrome (strip term)) eqn:Ha.
  { apply acronym_syndrome_ends, syndrome_not_all_generic in Ha.
    fold parts in Ha. congruence. }
  fold parts. rewrite Hall.
  apply Nat.leb_le in Hlen. rewrite Hlen.
  by repeat case_match.
Qed.

(** *** Tidy texts: lowercase words joined by single blanks *)

Lemma tidy_inv x :
  tidy x = true ->
  (exists c y, x = c :: y /\ is_lower_char c = true) /\
  (exists y d, x = y ++ [d] /\ is_lower_char d = true) /\
  forallb (fun c => negb (is_upper_char c)) x = true.
Proof.
  unfold tidy. rewrite !andb_true_iff. intros [[Hh Hl] Hall].
  split; [|split; [|done]].
  - destruct x as [|c y]; [done|]. eauto.
  - destruct (rev x) as [|d z] eqn:E; [done|].
    exists (rev z), d. split; [|done].
    rewrite <- (rev_involutive x), E. done.
Qed.

Lemma tidy_intro c y z d x :
  x = c :: y -> x = z ++ [d] ->
  is_lower_char c = true -> is_lower_char d = true ->
  forallb (fun c => negb (is_upper_char c)) x = true ->
  tidy x = true.
Proof.
  intros Hx Hx' Hc Hd Hall. unfold tidy. rewrite Hall, andb_true_r.
  apply andb_true_iff. split.
  - by rewrite Hx.
  - by rewrite Hx', rev_app_distr.
Qed.

Lemma tidy_join_two x y :
  tidy x = true -> tidy y = true -> tidy (x ++ s " " ++ y) = true.
Proof.
  intros Hx Hy.
  apply tidy_inv in Hx as ((c & x' & -> & Hc) & _ & Hax).
  apply tidy_inv in Hy as (_ & (y' & d & -> & Hd) & Hay).
  apply (tidy_intro c (x' ++ s " " ++ y' ++ [d]) ((c :: x') ++ s " " ++ y') d);
    try done.
  - by rewrite <- !app_assoc.
  - rewrite 2!forallb_app, Hax, Hay. done.
Qed.

Lemma tidy_join ws :
  ws <> [] -> Forall (fun w => tidy w = true) ws -> tidy (join (s " ") ws) = true.
Proof.
  induction ws as [|w ws IH]; [done|]. intros _ Hall.
  apply Forall_cons in Hall as [Hw Hws].
  destruct ws as [|w' ws']; [done|].
  change (join (s " ") (w :: w' :: ws'))
    with (w ++ s " " ++ join (s " ") (w' :: ws')).
  apply tidy_join_two; [done|]. by apply IH.
Qed.

Lemma lower_char_tidy c : is_upper_char c = false -> lower_char c = c.
Proof. unfold lower_char. by intros ->. Qed.

Lemma tidy_lower x : tidy x = true -> lower x = x.
Proof.
  intros H. apply tidy_inv in H as (_ & _ & Hall).
  induction x as [|c x IH]; [done|]. simpl in *.
  apply andb_true_iff in Hall as [Hc Hx]. apply negb_true_iff in Hc.
  by rewrite (lower_char_tidy c Hc), IH.
Qed.

Lemma strip_by_tidy f x :
  (forall c, is_lower_char c = true -> f c = false) ->
  tidy x = true -> strip_by f x = x.
Proof.
  intros Hf H. apply tidy_inv in H as ((c & y & Hx & Hc) & (z & d & Hx' & Hd) & _).
  unfold strip_by. rewrite Hx, (lstrip_by_keep f c y (Hf c Hc)), <- Hx, Hx'.
  apply rstrip_by_keep. by apply Hf.
Qed.

Lemma lower_not_space c : is_lower_char c = true -> is_space c = false.
Proof. by_chars c. Qed.

Lemma lower_not_sep c : is_lower_char c = true -> is_sep c = false.
Proof. by_chars c. Qed.

Lemma lower_not_in chars c :
  forallb (fun d => negb (is_lower_char d)) chars = true ->
  is_lower_char c = true -> mem_char c chars = false.
Proof.
  intros Hall Hc. unfold mem_char.
  destruct (existsb _ chars) eqn:E; [|done].
  apply existsb_exists in E as (d & Hd & Heq).
  apply bool_decide_eq_true in Heq as <-.
  rewrite forallb_forall in Hall. specialize (Hall c Hd).
  by rewrite Hc in Hall.
Qed.

Lemma tidy_strip x : tidy x = true -> strip x = x.
Proof. apply strip_by_tidy, lower_not_space. Qed.

Lemma tidy_strip_chars chars x :
  forallb (fun d => negb (is_lower_char d)) chars = true ->
  tidy x = true -> strip_chars chars x = x.
Proof. intros Hch. apply strip_by_tidy. intros c. by apply lower_not_in. Qed.

Lemma rstrip_by_drop f x c : f c = true -> rstrip_by f (x ++ [c]) = rstrip_by f x.
Proof. intros H. unfold rstrip_by. rewrite rev_app_distr. simpl. by rewrite H. Qed.

(** A tidy text followed by one character of the stripped class. *)
Lemma strip_by_tidy_trailing f x c :
  (forall c, is_lower_char c = true -> f c = false) ->
  f c = true -> tidy x = true -> strip_by f (x ++ [c]) = x.
Proof.
  intros Hf Hc Hx. pose proof (strip_by_tidy f x Hf Hx) as Hid.
  apply tidy_inv in Hx as ((a & y & -> & Ha) & _).
  unfold strip_by in *. simpl in *. rewrite (Hf a Ha) in *.
  change (a :: y ++ [c]) with ((a :: y) ++ [c]). by rewrite rstrip_by_drop.
Qed.

Lemma no_upper_take n x :
  forallb (fun c => negb (is_upper_char c)) x = true ->
  existsb is_upper_char (take n x) = false.
Proof.
  revert n; induction x as [|c x IH]; intros [|n]; simpl; try done.
  rewrite andb_true_iff, negb_true_iff. intros [-> Hx]. by apply IH.
Qed.

(** A text without uppercase letters never falls under the acronym case. *)
Lemma tidy_not_acronym x : tidy x = true -> acronym_syndrome x = false.
Proof.
  intros H. apply tidy_inv in H as (_ & _ & Hall).
  unfold acronym_syndrome. destruct (endswith (s " syndrome") x); [|done].
  apply andb_false_iff. right. unfold strip_chars.
  rewrite isupper_strip_by by (intros c; by apply punct_uncased).
  unfold isupper, drop_last. by rewrite no_upper_take.
Qed.

(** The words of [GENERIC_PARTS] are tidy and split into generic parts. *)
Lemma generic_word_tidy w : w ∈ GENERIC_PARTS -> tidy w = true.
Proof.
  intros Hw.
  assert (forallb tidy GENERIC_PARTS = true) as Hall by (vm_compute; reflexivity).
  rewrite forallb_forall in Hall. by apply Hall, list_elem_of_In.
Qed.

Lemma generic_word_parts w :
  w ∈ GENERIC_PARTS -> all_generic (re_split_ws_hyphen w) = true.
Proof.
  intros Hw.
  assert (forallb (fun w => all_generic (re_split_ws_hyphen w)) GENERIC_PARTS
          = true) as Hall by (vm_compute; reflexivity).
  rewrite forallb_forall in Hall. by apply (Hall w), list_elem_of_In.
Qed.

Lemma generic_words_parts ws :
  ws <> [] -> Forall (fun w => w ∈ GENERIC_PARTS) ws ->
  all_generic (re_split_ws_hyphen (join (s " ") ws)) = true.
Proof.
  induction ws as [|w ws IH]; [done|]. intros _ Hall.
  apply Forall_cons in Hall as [Hw Hws].
  destruct ws as [|w' ws']; [by apply generic_word_parts|].
  change (join (s " ") (w :: w' :: ws'))
    with (w ++ " "%char :: join (s " ") (w' :: ws')).
  pose proof (generic_word_tidy w Hw) as Htw.
  apply tidy_inv in Htw as (_ & (y & d & Hwd & Hd) & _).
  assert (tidy (join (s " ") (w' :: ws')) = true) as Htj.
  { apply tidy_join; [done|].
    eapply Forall_impl; [exact Hws|]. apply generic_word_tidy. }
  pose proof (generic_word_parts w Hw) as Hgw.
  specialize (IH ltac:(done) Hws).
  set (j := join (s " ") (w' :: ws')) in *.
  apply tidy_inv in Htj as ((c & r & Hj & Hc) & _).
  unfold re_split_ws_hyphen in *.
  rewrite Hwd, <- app_assoc. cbn [app].
  rewrite (split_runs_app false y d " "%char) by (by apply lower_not_sep || done).
  rewrite all_generic_app, <- Hwd, Hgw, andb_true_l.
  rewrite Hj, split_runs_flag by (by apply lower_not_sep).
  by rewrite <- Hj.
Qed.

(** Generic qualifiers followed by one of the keywords. *)
Lemma qualified_keyword_generic ws kw :
  ws <> [] -> Forall (fun w => w ∈ GENERIC_PARTS) ws -> kw ∈ KEYWORDS ->
  _is_generic (join (s " ") ws ++ s " " ++ kw) = true.
Proof.
  intros Hne Hws Hkw.
  set (q := join (s " ") ws).
  assert (tidy q = true) as Hq.
  { apply tidy_join; [done|].
    eapply Forall_impl; [exact Hws|]. apply generic_word_tidy. }
  assert (tidy kw = true) as Htkw.
  { assert (forallb tidy KEYWORDS = true) as Hall by (vm_compute; reflexivity).
    rewrite forallb_forall in Hall. by apply Hall, list_elem_of_In. }
  assert (tidy (q ++ s " " ++ kw) = true) as Ht by by apply tidy_join_two.
  unfold _is_generic.
  rewrite (tidy_strip _ Ht), (tidy_lower _ Ht), (tidy_not_acronym _ Ht).
  change [s "disease"; s "syndrome"; s "disorder"] with KEYWORDS.
  destruct (in_strs _ _); [done|].
  assert (existsb (generic_suffix (q ++ s " " ++ kw)) KEYWORDS = true) as ->; [|done].
  apply existsb_exists. exists kw. split; [by apply list_elem_of_In|].
  unfold generic_suffix.
  assert (endswith kw (q ++ s " " ++ kw) = true) as ->.
  { apply endswith_spec. exists (q ++ s " "). by rewrite <- app_assoc. }
  replace (q ++ s " " ++ kw) with ((q ++ s " ") ++ kw) by by rewrite <- app_assoc.
  rewrite rsplit1_head_app. unfold strip_chars.
  rewrite (strip_by_tidy_trailing _ q " "%char); [| |done|done].
  - assert (str_eqb q [] = false) as ->.
    { apply str_eqb_neq. intros Hq0. by rewrite Hq0 in Hq. }
    simpl. by apply generic_words_parts.
  - intros c. by apply lower_not_in.
Qed.

(** *** The acronym case *)

Lemma existsb_none (f q : ascii -> bool) y :
  (forall c, f c = true -> q c = false) ->
  forallb f y = true -> existsb q y = false.
Proof.
  intros Hfq. induction y as [|c y IH]; simpl; [done|].
  rewrite andb_true_iff. intros [Hc Hy]. by rewrite (Hfq c Hc), IH.
Qed.

Lemma isupper_lstrip_space p : isupper (lstrip_by is_space p) = isupper p.
Proof.
  destruct (lstrip_by_suffix is_space p) as (y & Hy & Hall).
  unfold isupper. rewrite Hy at 3 4. rewrite !existsb_app.
  rewrite (existsb_none is_space is_upper_char y), (existsb_none is_space is_lower_char y);
    try done; intros c Hc; by apply space_uncased.
Qed.

Lemma lstrip_by_app f p y :
  existsb (fun c => negb (f c)) p = true ->
  lstrip_by f (p ++ y) = lstrip_by f p ++ y.
Proof.
  induction p as [|c p IH]; simpl; [done|].
  destruct (f c); simpl; [apply IH | done].
Qed.

Lemma upper_not_space c : is_upper_char c = true -> negb (is_space c) = true.
Proof. by_chars c. Qed.

Lemma isupper_has_nonspace p :
  isupper p = true -> existsb (fun c => negb (is_space c)) p = true.
Proof.
  unfold isupper. rewrite andb_true_iff. intros [Hu _].
  apply existsb_exists in Hu as (c & Hc & Hup).
  apply existsb_exists. exists c. split; [done|]. by apply upper_not_space.
Qed.

Lemma strip_acronym p :
  isupper p = true ->
  strip (p ++ s " syndrome") = lstrip_by is_space p ++ s " syndrome".
Proof.
  intros Hp. unfold strip, strip_by.
  rewrite lstrip_by_app by by apply isupper_has_nonspace.
  change (s " syndrome") with (s " syndrom" ++ ["e"%char]).
  rewrite app_assoc. by apply rstrip_by_keep.
Qed.

Lemma acronym_not_generic term p :
  strip term = p ++ s " syndrome" -> isupper p = true ->
  _is_generic term = false.
Proof.
  intros Hs Hp. unfold _is_generic. rewrite Hs.
  assert (acronym_syndrome (p ++ s " syndrome") = true) as ->; [|done].
  unfold acronym_syndrome.
  assert (endswith (s " syndrome") (p ++ s " syndrome") = true) as ->
    by (apply endswith_spec; eauto).
  rewrite drop_last_app. unfold strip_chars.
  assert (isupper (strip_by (fun c => mem_char c (s " ,;:-")) p) = true) as Hup.
  { rewrite isupper_strip_by; [done|]. intros c. by apply punct_uncased. }
  rewrite Hup, andb_true_r. apply negb_true_iff, str_eqb_neq.
  by apply isupper_nonempty.
Qed.

(** *** Which names [associate_diseases] adds *)

Lemma process_entity_names net sentences genes t ent i g g' name :
  genes !! i = Some g ->
  (process_entity net sentences (genes, t) ent).1 !! i = Some g' ->
  name ∈ default ∅ (diseases g') ->
  name ∈ default ∅ (diseases g) \/
  (name = disease_name_of ent /\ accepted net ent t).
Proof.
  intros Hi Hi' Hin.
  destruct (accepted_dec net ent t) as [Hacc|Hrej].
  - rewrite (process_entity_accepted _ _ _ _ _ Hacc) in Hi'. cbn [fst] in Hi'.
    destruct (link_entity_cases sentences genes ent (disease_name_of ent))
      as [Heq|[j Heq]]; rewrite Heq in Hi'.
    + left. by simplify_eq.
    + apply link_lookup in Hi' as (g0 & Hg0 & [->| ->]); simplify_eq; [by left|].
      simpl in Hin. apply elem_of_union in Hin as [Hin|Hin]; [by left|].
      right. apply elem_of_singleton in Hin. done.
  - rewrite process_entity_rejected in Hi' by done. left. by simplify_eq.
Qed.

Lemma fold_process_names net sentences es genes t i g g' name :
  genes !! i = Some g ->
  (fold_left (process_entity net sentences) es (genes, t)).1 !! i = Some g' ->
  name ∈ default ∅ (diseases g') ->
  name ∈ default ∅ (diseases g) \/
  exists ent t', ent ∈ es /\ name = disease_name_of ent /\ accepted net ent t'.
Proof.
  revert genes t g; induction es as [|e es IH]; intros genes t g Hi Hi' Hin;
    cbn [fold_left] in Hi'.
  - left. simpl in Hi'. by simplify_eq.
  - destruct (process_entity net sentences (genes, t) e) as [genes1 t1] eqn:E.
    pose proof (process_entity_extends net sentences genes t e) as Hext.
    rewrite E in Hext. cbn [fst] in Hext.
    destruct (Forall2_lookup_l _ _ _ _ _ Hext Hi) as (g1 & Hg1 & _).
    destruct (IH genes1 t1 g1 Hg1 Hi' Hin) as [Hin1|(ent & t' & He & Hn & Ha)].
    + pose proof (process_entity_names net sentences genes t e i g g1 name Hi) as H.
      rewrite E in H. destruct (H Hg1 Hin1) as [?|[Hn Ha]]; [by left|].
      right. exists e, t. split; [apply elem_of_cons; by left | done].
    + right. exists ent, t'. split; [apply elem_of_cons; by right | done].
Qed.

(** Every name that [associate_diseases] adds to a gene is the name of an
    entity of the document that passed the three filters. *)
Lemma associate_diseases_names net genes doc t i g g' name :
  genes !! i = Some g ->
  (associate_diseases net genes doc t).1 !! i = Some g' ->
  name ∈ default ∅ (diseases g') ->
  name ∈ default ∅ (diseases g) \/
  exists ent t', ent ∈ ents doc /\ name = disease_name_of ent /\
                 accepted net ent t'.
Proof. apply fold_process_names. Qed.

Lemma generic_never_added net genes doc t name i g g' :
  _is_generic name = true ->
  genes !! i = Some g ->
  (associate_diseases net genes doc t).1 !! i = Some g' ->
  name ∈ default ∅ (diseases g') -> name ∈ default ∅ (diseases g).
Proof.
  intros Hgen Hi Hi' Hin.
  destruct (associate_diseases_names _ _ _ _ _ _ _ _ Hi Hi' Hin)
    as [?|(ent & t' & _ & -> & (_ & _ & Hng & _))]; [done|congruence].
Qed.

Lemma one_generic_word w : w ∈ GENERIC_PARTS -> _is_generic w = true.
Proof.
  intros Hw.
  assert (forallb _is_generic GENERIC_PARTS = true) as Hall
    by (vm_compute; reflexivity).
  rewrite forallb_forall in Hall. by apply Hall, list_elem_of_In.
Qed.

Lemma two_generic_words w1 w2 :
  w1 ∈ GENERIC_PARTS -> w2 ∈ GENERIC_PARTS ->
  mem_char "-" w1 = false -> mem_char "-" w2 = false ->
  _is_generic (w1 ++ s " " ++ w2) = true.
Proof.
  intros H1 H2 Hh1 Hh2.
  assert (forallb (fun a => forallb (fun b =>
            mem_char "-" a || mem_char "-" b || _is_generic (a ++ s " " ++ b))
            GENERIC_PARTS) GENERIC_PARTS = true) as Hall
    by (vm_compute; reflexivity).
  rewrite forallb_forall in Hall.
  specialize (Hall w1 (proj1 (list_elem_of_In _ _) H1)).
  rewrite forallb_forall in Hall.
  specialize (Hall w2 (proj1 (list_elem_of_In _ _) H2)).
  by rewrite Hh1, Hh2 in Hall.
Qed.

(** C4.  The filter classifies "disease" and "autosomal recessive" as
    generic; so is every word of [GENERIC_PARTS], every pair of its
    hyphen-free words, and more generally every term that splits, on runs of
    blanks and hyphens, into one or two parts of [GENERIC_PARTS]; so is every
    sequence of words of [GENERIC_PARTS] followed by "disease", "syndrome" or
    "disorder".  [associate_diseases] never adds a generic name to any gene.
    A term made of an upper-case text followed by " syndrome" is not
    generic, also when that text, such as "SHORT", is a generic word once
    lowercased. *)
Theorem generic_term_filter :
  (_is_generic (s "disease") = true /\
   _is_generic (s "autosomal recessive") = true) /\
  (forall w, w ∈ GENERIC_PARTS -> _is_generic w = true) /\
  (forall w1 w2, w1 ∈ GENERIC_PARTS -> w2 ∈ GENERIC_PARTS ->
     mem_char "-" w1 = false -> mem_char "-" w2 = false ->
     _is_generic (w1 ++ s " " ++ w2) = true) /\
  (forall term,
     (length (re_split_ws_hyphen (lower (strip term))) <= 2)%nat ->
     all_generic (re_split_ws_hyphen (lower (strip term))) = true ->
     _is_generic term = true) /\
  (forall ws kw,
     ws <> [] -> Forall (fun w => w ∈ GENERIC_PARTS) ws -> kw ∈ KEYWORDS ->
     _is_generic (join (s " ") ws ++ s " " ++ kw) = true) /\
  (forall net genes doc t name i g g',
     _is_generic name = true ->
     genes !! i = Some g ->
     (associate_diseases net genes doc t).1 !! i = Some g' ->
     name ∈ default ∅ (diseases g') -> name ∈ default ∅ (diseases g)) /\
  (forall p, isupper p = true -> _is_generic (p ++ s " syndrome") = false) /\
  (in_strs (lower (s "SHORT")) GENERIC_PARTS = true /\
   _is_generic (s "SHORT syndrome") = false).
Proof.
  split; [by vm_compute|].
  split; [exact one_generic_word|].
  split; [exact two_generic_words|].
  split; [exact generic_parts_generic|].
  split; [exact qualified_keyword_generic|].
  split; [exact generic_never_added|].
  split; [|by vm_compute].
  intros p Hp. apply (acronym_not_generic _ (lstrip_by is_space p)).
  - by apply strip_acronym.
  - by rewrite isupper_lstrip_space.
Qed.

Lemma generic_term_filter_witness :
  _is_generic (s "rare genetic disease") = true /\
  _is_generic (s "RARE syndrome") = false.
Proof.
  destruct generic_term_filter as (_ & _ & _ & _ & Hkw & _ & Hacr & _).
  split.
  - apply (Hkw [s "rare"; s "genetic"] (s "disease")); [done| |].
    + repeat constructor; apply (bool_decide_unpack _); by vm_compute.
    + apply (bool_decide_unpack _); by vm_compute.
  - apply (Hacr (s "RARE")). reflexivity.
Defined.

Example hyphenated_pair_is_not_generic :
  _is_generic (s "single-system rare") = false.
Proof. reflexivity. Qed.

(** *** The fetchers *)

Lemma hgnc_api_failure net path t :
  fetch_failure (net t (hgnc_request path)) ->
  exists e, _hgnc_api net path t = (Raise e, S t).
Proof.
  unfold _hgnc_api, requests_get.
  intros [->|(r & -> & Hr)]; simpl; [eauto|].
  destruct (raise_for_status r); simpl; [|eauto].
  unfold resp_json. rewrite Hr. eauto.
Qed.

Lemma hgnc_api_http_error net path t r :
  net t (hgnc_request path) = Got r ->
  400 <= status_code r < 600 ->
  _hgnc_api net path t = (Raise HTTPError, S t).
Proof.
  intros Hr [Hlo Hhi]. unfold _hgnc_api, requests_get. rewrite Hr. simpl.
  unfold raise_for_status.
  apply Z.leb_le in Hlo. apply Z.ltb_lt in Hhi. by rewrite Hlo, Hhi.
Qed.

(** What the [try] blocks of the fetchers do swallow.  When the request
    raises or the body of the response does not decode,
    [fetch_hgnc_by_symbol] and [fetch_hgnc_by_id] return [{}],
    [fetch_ncbi_aliases] returns [[]] and [fetch_coordinates_by_ensembl]
    returns [""], and nothing is raised; the two HGNC fetchers do the same
    on a 4xx or 5xx status and the Ensembl one on any status other than
    200. *)
Theorem fetch_failures_are_swallowed py_str net t :
  (forall symbol,
     fetch_failure (net t (hgnc_request (s "fetch/symbol/" ++ symbol))) ->
     fetch_hgnc_by_symbol net symbol t = (Ok (JDict []), S t)) /\
  (forall hgnc_id,
     fetch_failure
       (net t (hgnc_request (s "fetch/hgnc_id/" ++ prefixed_id hgnc_id))) ->
     (fetch_hgnc_by_id net hgnc_id t).1 = Ok (JDict [])) /\
  (forall entrez_id,
     fetch_failure (net t (esummary_request entrez_id)) ->
     fetch_ncbi_aliases net entrez_id t = (Ok [], S t)) /\
  (forall ensembl_id assembly,
     fetch_failure (net t (ensembl_request ensembl_id assembly)) ->
     fetch_coordinates_by_ensembl py_str net ensembl_id assembly t
     = (Ok [], S t)) /\
  (forall symbol r,
     net t (hgnc_request (s "fetch/symbol/" ++ symbol)) = Got r ->
     400 <= status_code r < 600 ->
     fetch_hgnc_by_symbol net symbol t = (Ok (JDict []), S t)) /\
  (forall ensembl_id assembly r,
     net t (ensembl_request ensembl_id assembly) = Got r ->
     status_code r <> 200 ->
     fetch_coordinates_by_ensembl py_str net ensembl_id assembly t
     = (Ok [], S t)) /\
  (forall hgnc_id r,
     net t (hgnc_request (s "fetch/hgnc_id/" ++ prefixed_id hgnc_id)) = Got r ->
     400 <= status_code r < 600 ->
     (fetch_hgnc_by_id net hgnc_id t).1 = Ok (JDict [])).
Proof.
  repeat split.
  - intros symbol Hf. unfold fetch_hgnc_by_symbol.
    destruct (hgnc_api_failure _ _ _ Hf) as [e ->]. done.
  - intros hgnc_id Hf. unfold fetch_hgnc_by_id.
    destruct (hgnc_arg_falsy hgnc_id); [done|].
    destruct (hgnc_api_failure _ _ _ Hf) as [e ->]. done.
  - intros entrez_id Hf. unfold fetch_ncbi_aliases, requests_get.
    destruct Hf as [->|(r & -> & Hr)]; simpl; [done|].
    unfold resp_json. by rewrite Hr.
  - intros ensembl_id assembly Hf.
    unfold fetch_coordinates_by_ensembl, requests_get.
    destruct Hf as [->|(r & -> & Hr)]; [done|].
    destruct (negb (status_code r =? 200)); [done|].
    unfold resp_json. by rewrite Hr.
  - intros symbol r Hr Hst. unfold fetch_hgnc_by_symbol.
    by rewrite (hgnc_api_http_error _ _ _ _ Hr Hst).
  - intros ensembl_id assembly r Hr Hst.
    unfold fetch_coordinates_by_ensembl, requests_get. rewrite Hr.
    apply Z.eqb_neq in Hst. by rewrite Hst.
  - intros hgnc_id r Hr Hst. unfold fetch_hgnc_by_id.
    destruct (hgnc_arg_falsy hgnc_id); [done|].
    by rewrite (hgnc_api_http_error _ _ _ _ Hr Hst).
Qed.

Lemma fetch_failures_are_swallowed_witness :
  fetch_failure (net_down 0%nat (hgnc_request (s "fetch/symbol/" ++ s "TP53"))) /\
  fetch_hgnc_by_symbol net_down (s "TP53") 0 = (Ok (JDict []), 1%nat).
Proof.
  assert (fetch_failure
            (net_down 0%nat (hgnc_request (s "fetch/symbol/" ++ s "TP53"))))
    as Hf by (by left).
  split; [exact Hf|].
  exact (proj1 (fetch_failures_are_swallowed (fun _ => []) net_down 0%nat)
               (s "TP53") Hf).
Defined.

(** It is not so that the fetchers never raise. *)
Lemma fetchers_can_raise : ~ fetchers_never_raise.
Proof.
  intros H.
  destruct (H (fun _ => []) net_array 0%nat (s "TP53") (IdInt 11998)
              (s "7157") (s "ENSG00000141510") (s "hg38"))
    as ([v Hv] & _).
  vm_compute in Hv. discriminate.
Qed.

(** C7.  The fetchers are meant to give an empty value rather than let an
    error through, and they do not: the fields of the answer are read after
    the [try] block, so an answer with status 200 whose body decodes to the
    JSON array [[1]], and not to an object, makes each of the four raise
    [AttributeError]. *)
Theorem array_payload_raises :
  (fetch_hgnc_by_symbol net_array (s "TP53") 0).1 = Raise AttributeError /\
  (fetch_hgnc_by_id net_array (IdInt 11998) 0).1 = Raise AttributeError /\
  (fetch_ncbi_aliases net_array (s "7157") 0).1 = Raise AttributeError /\
  (fetch_coordinates_by_ensembl (fun _ => []) net_array
     (s "ENSG00000141510") (s "hg38") 0).1 = Raise AttributeError.
Proof. repeat split; vm_compute; reflexivity. Qed.

(** *** get_article_text *)

Lemma download_body_no_value_error lib net pmcid t msg :
  (download_body lib net pmcid t).1 <> Raise (ValueError msg).
Proof.
  unfold download_body, requests_get, raise_for_status.
  destruct (net t _) as [|r]; simpl; [done|].
  destruct (_ && _)%bool; simpl; [done|].
  by repeat case_match.
Qed.

Lemma pmcid_of_pmid_no_value_error lib net pmid t msg :
  (pmcid_of_pmid lib net pmid t).1 <> Raise (ValueError msg).
Proof.
  unfold pmcid_of_pmid, requests_get, raise_for_status, resp_json, py_get,
    py_index0.
  destruct (net t _) as [|r]; simpl; [done|].
  destruct (_ && _)%bool; simpl; [done|].
  repeat (case_match; simpl; try done).
Qed.

Lemma identify_raises ident e :
  identify ident = Raise e <->
  e = ValueError BAD_IDENTIFIER /\
  startswith (s "PMC") (upper ident) = false /\
  startswith (s "PMID") (upper ident) = false /\
  isdigit ident = false.
Proof.
  unfold identify.
  destruct (startswith (s "PMC") (upper ident));
    [split; [done | by intros (_ & ? & _)]|].
  destruct (startswith (s "PMID") (upper ident));
    [split; [done | by intros (_ & _ & ? & _)]|].
  destruct (isdigit ident); [split; [done | by intros (_ & _ & _ & ?)]|].
  split; [by intros [= <-] | by intros (-> & _)].
Qed.

Lemma value_error_comes_from_identify lib net identifier t msg :
  (get_article_text lib net identifier t).1 = Raise (ValueError msg) ->
  identify (strip identifier) = Raise (ValueError msg).
Proof.
  unfold get_article_text.
  destruct (identify (strip identifier)) as [[pmcid|pmid]|e] eqn:E.
  - intros H. by apply download_body_no_value_error in H.
  - destruct (pmcid_of_pmid lib net pmid t) as [[pmcid|e] t'] eqn:E2.
    + intros H. by apply download_body_no_value_error in H.
    + simpl. intros [= ->].
      pose proof (pmcid_of_pmid_no_value_error lib net pmid t msg) as Hno.
      rewrite E2 in Hno. by destruct Hno.
  - simpl. by intros [= ->].
Qed.

(** C8.  [get_article_text] raises the [ValueError] of a badly formatted
    identifier, the one that carries the message about the identifier,
    exactly when the stripped identifier neither starts with "PMC" nor with
    "PMID", whatever the case of the letters, nor is made of digits only. *)
Theorem bad_identifier_raises lib net identifier t :
  (get_article_text lib net identifier t).1 = Raise (ValueError BAD_IDENTIFIER)
  <->
  startswith (s "PMC") (upper (strip identifier)) = false /\
  startswith (s "PMID") (upper (strip identifier)) = false /\
  isdigit (strip identifier) = false.
Proof.
  split.
  - intros H. apply value_error_comes_from_identify, identify_raises in H.
    tauto.
  - intros Hbad.
    assert (identify (strip identifier) = Raise (ValueError BAD_IDENTIFIER)) as Hi
      by (apply identify_raises; tauto).
    unfold get_article_text. by rewrite Hi.
Qed.

(** A well-formed PMID does not exclude an error of the class [ValueError]:
    when the search answers with a body that is not JSON, [resp.json()]
    raises its decode error, which Python counts among the [ValueError]s. *)
Example non_json_search_reply :
  get_article_text lib_plain net_yes (s "38790019") 0
  = (Raise JSONDecodeError, 1%nat) /\
  is_value_error JSONDecodeError = true.
Proof. split; reflexivity. Qed.

Example lowercase_pmc_is_accepted lib net :
  (get_article_text lib net (s " pmc11127317 ") 0).1
  <> Raise (ValueError BAD_IDENTIFIER).
Proof. apply download_body_no_value_error. Qed.

Example doi_is_rejected lib net :
  get_article_text lib net (s "doi:10.1000/182") 0
  = (Raise (ValueError BAD_IDENTIFIER), 0%nat).
Proof. reflexivity. Qed.

Example empty_identifier_is_rejected lib net :
  get_article_text lib net (s "  ") 0
  = (Raise (ValueError BAD_IDENTIFIER), 0%nat).
Proof. reflexivity. Qed.

(** *** write_csv *)

Lemma writerow_lookup path fs row rows :
  fs !! path = Some rows ->
  writerow path fs row !! path = Some (rows ++ [row]).
Proof. intros H. unfold writerow. by rewrite lookup_alter_eq, H. Qed.

Lemma writerow_other path fs row p :
  p <> path -> writerow path fs row !! p = fs !! p.
Proof. intros H. unfold writerow. by rewrite lookup_alter_ne. Qed.

Lemma writerows_lookup {A} (f : A -> list pystr) path items fs acc :
  fs !! path = Some acc ->
  fold_left (fun fs x => writerow path fs (f x)) items fs !! path
  = Some (acc ++ map f items).
Proof.
  revert fs acc; induction items as [|x items IH]; intros fs acc H; simpl.
  - by rewrite app_nil_r.
  - rewrite (IH _ (acc ++ [f x])); [by rewrite <- app_assoc|].
    by apply writerow_lookup.
Qed.

Lemma writerows_other {A} (f : A -> list pystr) path items fs p :
  p <> path ->
  fold_left (fun fs x => writerow path fs (f x)) items fs !! p = fs !! p.
Proof.
  intros Hp. revert fs; induction items as [|x items IH]; intros fs; simpl;
    [done|].
  by rewrite IH, writerow_other.
Qed.

(** C9.  Whatever the records and whatever the files held before, the file
    written by [write_csv] holds the row of the seven headers first, then one
    row for each record, in the order of the input, with the seven fields of
    the record in the order of the headers; no other file changes. *)
Theorem write_csv_rows (rows : list Models.GeneInfo) (path : pystr) (fs : Files) :
  write_csv rows path fs !! path
  = Some ([ s "HGNC ID"; s "Gene Symbol"; s "HGNC Gene Name"; s "Gene Aliases";
            s "hg38 Coordinates"; s "hg19 Coordinates"; s "Disease" ]
          :: map (fun gene =>
                    [ Models.hgnc_id gene; Models.gene_symbol gene;
                      Models.gene_name gene; Models.gene_aliases gene;
                      Models.coord_hg38 gene; Models.coord_hg19 gene;
                      Models.disease gene ]) rows) /\
  (exists body,
     write_csv rows path fs !! path
     = Some ([ s "HGNC ID"; s "Gene Symbol"; s "HGNC Gene Name";
               s "Gene Aliases"; s "hg38 Coordinates"; s "hg19 Coordinates";
               s "Disease" ] :: body) /\
     length body = length rows /\
     forall i gene, rows !! i = Some gene ->
       body !! i = Some [ Models.hgnc_id gene; Models.gene_symbol gene;
                          Models.gene_name gene; Models.gene_aliases gene;
                          Models.coord_hg38 gene; Models.coord_hg19 gene;
                          Models.disease gene ]) /\
  (forall p, p <> path -> write_csv rows path fs !! p = fs !! p).
Proof.
  assert (forall f : Models.GeneInfo -> list pystr,
            forall hd, fold_left (fun fs x => writerow path fs (f x)) rows
              (writerow path (open_w path fs) hd) !! path
            = Some (hd :: map f rows)) as Hfile.
  { intros f hd. rewrite (writerows_lookup f path rows _ [hd]); [done|].
    apply (writerow_lookup path _ hd []). apply lookup_insert_eq. }
  unfold write_csv. split; [apply Hfile|]. split.
  - eexists. split; [apply Hfile|]. split; [by rewrite length_map|].
    intros i gene Hi. by rewrite list_lookup_fmap, Hi.
  - intros p Hp. rewrite writerows_other, writerow_other by done.
    unfold open_w. by rewrite lookup_insert_ne.
Qed.

(** *** The dictionary of [extract_genes] *)

Lemma dict_get_elem key d g : dict_get key d = Some g -> (key, g) ∈ d.
Proof.
  induction d as [|[k v] d IH]; simpl; [done|].
  destruct (str_eqb k key) eqn:E.
  - apply str_eqb_eq in E as ->. intros [= ->]. apply elem_of_cons; by left.
  - intros H. apply elem_of_cons; right. by apply IH.
Qed.

Lemma dict_set_elem key v d k g :
  (k, g) ∈ dict_set key v d -> (k = key /\ g = v) \/ (k, g) ∈ d.
Proof.
  induction d as [|[k0 w] d IH]; simpl.
  - intros H. apply list_elem_of_singleton in H. left. by simplify_eq.
  - destruct (str_eqb k0 key) eqn:E.
    + apply str_eqb_eq in E as ->. intros H.
      apply elem_of_cons in H as [H|H]; [left; by simplify_eq|].
      right. apply elem_of_cons; by right.
    + intros H. apply elem_of_cons in H as [H|H].
      * right. apply elem_of_cons; by left.
      * destruct (IH H) as [?|?]; [by left|].
        right. apply elem_of_cons; by right.
Qed.

Lemma dict_set_keys key v d k :
  k ∈ (dict_set key v d).*1 <-> k = key \/ k ∈ d.*1.
Proof.
  induction d as [|[k0 w] d IH]; simpl.
  - rewrite list_elem_of_singleton. split; [by left|]. intros [?|H]; [done|].
    by apply elem_of_nil in H.
  - destruct (str_eqb k0 key) eqn:E; simpl.
    + apply str_eqb_eq in E as ->. rewrite elem_of_cons. tauto.
    + rewrite !elem_of_cons, IH. tauto.
Qed.

Lemma dict_set_nodup key v d : NoDup d.*1 -> NoDup (dict_set key v d).*1.
Proof.
  induction d as [|[k0 w] d IH]; simpl; intros Hnd.
  - apply NoDup_singleton.
  - apply NoDup_cons in Hnd as [Hk0 Hnd].
    destruct (str_eqb k0 key) eqn:E; simpl.
    + by apply NoDup_cons.
    + apply NoDup_cons. split; [|by apply IH].
      rewrite dict_set_keys. apply str_eqb_neq in E. intros [?|?]; done.
Qed.

(** Storing under [key] a record whose mentions are good for [key] keeps
    the invariant. *)
Lemma dict_set_ok text key v d :
  dict_ok text d -> Forall (good_mention text key) (mentions v) ->
  dict_ok text (dict_set key v d).
Proof.
  intros [Hnd Hgood] Hv. split; [by apply dict_set_nodup|].
  intros k g Hin. apply dict_set_elem in Hin as [[-> ->]|Hin]; [done|].
  by apply (Hgood k g).
Qed.

Lemma add_explicit_ok text d m :
  dict_ok text d -> span_ok text (e_start1 m) (e_end1 m) ->
  dict_ok text (add_explicit text d m).
Proof.
  intros Hd Hspan. unfold add_explicit. apply dict_set_ok; [done|].
  cbn [append_mention mentions]. apply Forall_app. split.
  - destruct (dict_get _ d) as [g|] eqn:E; [|constructor].
    apply dict_get_elem in E. destruct Hd as [_ Hgood].
    specialize (Hgood _ _ E). by destruct (hgnc_id g).
  - apply Forall_cons. split; [|constructor]. by split.
Qed.

Lemma add_context_ok text d m :
  dict_ok text d -> span_ok text (c_start1 m) (c_end1 m) ->
  dict_ok text (add_context text d m).
Proof.
  intros Hd Hspan. unfold add_context. apply dict_set_ok; [done|].
  cbn [append_mention mentions]. apply Forall_app. split.
  - destruct (dict_get _ d) as [g|] eqn:E; [|constructor].
    apply dict_get_elem in E. destruct Hd as [_ Hgood]. by apply (Hgood _ _ E).
  - apply Forall_cons. split; [|constructor]. by split.
Qed.

Lemma fold_ok {M} (step : GeneDict -> M -> GeneDict) (good : M -> Prop)
  text ms d :
  (forall d m, dict_ok text d -> good m -> dict_ok text (step d m)) ->
  Forall good ms -> dict_ok text d -> dict_ok text (fold_left step ms d).
Proof.
  intros Hstep Hms. revert d.
  induction Hms as [|m ms Hm _ IH]; intros d Hd; simpl; [done|].
  apply IH. by apply Hstep.
Qed.

(** *** The matches lie within the text *)

Lemma run_length_le p x : (run_length p x <= length x)%nat.
Proof. induction x as [|c x IH]; simpl; [done|]. destruct (p c); lia. Qed.

Lemma finditer_at {A} (m : option ascii -> pystr -> option (A * nat))
  skip prev pos x p a :
  (p, a) ∈ finditer m skip prev pos x ->
  exists prev' total,
    (pos <= p)%nat /\ m prev' (drop (p - pos) x) = Some (a, total).
Proof.
  revert skip prev pos; induction x as [|c x IH]; intros skip prev pos; simpl.
  - intros H. by apply elem_of_nil in H.
  - assert (forall k, (p, a) ∈ finditer m k (Some c) (S pos) x ->
              exists prev' total,
                (pos <= p)%nat /\ m prev' (drop (p - pos) (c :: x)) = Some (a, total))
      as Hnext.
    { intros k H. destruct (IH _ _ _ H) as (prev' & total & Hle & Hm).
      exists prev', total. split; [lia|].
      replace (p - pos)%nat with (S (p - S pos)) by lia. done. }
    destruct skip as [|k]; [|apply Hnext].
    destruct (m prev (c :: x)) as [[a0 total]|] eqn:E; [|apply Hnext].
    intros H. apply elem_of_cons in H as [H|H]; [|by eapply Hnext].
    simplify_eq. exists prev, total. split; [done|].
    by rewrite Nat.sub_diag.
Qed.

Lemma explicit_matches_ok text m :
  m ∈ explicit_matches text -> span_ok text (e_start1 m) (e_end1 m).
Proof.
  unfold explicit_matches. intros H.
  apply list_elem_of_fmap in H as ([p [[n1 off2] n2]] & -> & H).
  apply finditer_at in H as (prev & total & _ & Hm).
  rewrite Nat.sub_0_r in Hm. set (x := drop p text) in *.
  destruct (match_explicit prev x) as [[[[n1' off2'] n2'] total']|] eqn:E;
    [|done].
  simplify_eq. unfold match_explicit in E.
  destruct (negb (word_boundary prev (head x))); [done|].
  destruct (run_length is_sym_char x =? 0)%nat eqn:E1; [done|].
  apply Nat.eqb_neq in E1.
  assert (n1 = run_length is_sym_char x) as -> by (repeat case_match; by simplify_eq).
  pose proof (run_length_le is_sym_char x) as Hle.
  subst x. rewrite length_drop in Hle.
  unfold span_ok. simpl. lia.
Qed.

Lemma longest_bounded_le m x k :
  longest_bounded m x = Some k -> (1 <= k <= m)%nat.
Proof.
  induction m as [|m IH]; simpl; [done|].
  destruct (boundary_after (S m) x); [intros [= <-]; lia|].
  intros H. apply IH in H. lia.
Qed.

Lemma sym_group_fits x m : sym_group x = Some m -> fits (O, m) x.
Proof.
  unfold sym_group. intros H. apply longest_bounded_le in H.
  pose proof (run_length_le is_sym_char_ci x). unfold fits. simpl. lia.
Qed.

(** A group that fits in the text left after [k] characters fits in the
    whole. *)
Lemma fits_drop k off m x :
  fits (off, m) (drop k x) -> fits ((k + off)%nat, m) x.
Proof. unfold fits. simpl. rewrite length_drop. lia. Qed.

Lemma article_then_symbol_fits art x r :
  article_then_symbol art x = Some r -> fits r x.
Proof.
  unfold article_then_symbol. destruct (startswith_ci art x); [|done].
  destruct (spaces1 _) as [n|]; [|done].
  destruct (sym_group _) as [m|] eqn:E; [|done]. intros [= <-].
  apply sym_group_fits, fits_drop, fits_drop in E.
  replace (length art + n)%nat with (length art + (n + 0))%nat by lia. done.
Qed.

Lemma optional_article_symbol_fits x r :
  optional_article_symbol x = Some r -> fits r x.
Proof.
  unfold optional_article_symbol.
  destruct (article_then_symbol (s "the") x) eqn:E1;
    [intros [= <-]; by eapply article_then_symbol_fits|].
  destruct (article_then_symbol (s "a") x) eqn:E2;
    [intros [= <-]; by eapply article_then_symbol_fits|].
  destruct (sym_group x) eqn:E3; [|done].
  intros [= <-]. by apply sym_group_fits.
Qed.

Lemma after_keyword_fits x r : after_keyword x = Some r -> fits r x.
Proof.
  unfold after_keyword. destruct (spaces1 x) as [n1|]; [|done].
  destruct (startswith_ci _ _); [|done].
  destruct (spaces1 _) as [n2|]; [|done].
  destruct (optional_article_symbol _) as [[off m]|] eqn:E; [|done].
  intros [= <-].
  apply optional_article_symbol_fits, fits_drop, fits_drop, fits_drop in E.
  replace (n1 + 2 + n2 + off)%nat with (n1 + (2 + (n2 + off)))%nat by lia. done.
Qed.

Lemma match_context_fits x r : match_context x = Some r -> fits r x.
Proof.
  unfold match_context. induction CONTEXT_KEYWORDS as [|kw kws IH]; simpl; [done|].
  destruct (keyword_then kw x) as [r'|] eqn:E; [|exact IH].
  intros [= <-]. unfold keyword_then in E.
  destruct (startswith_ci kw x); [|done].
  destruct (after_keyword _) as [[off m]|] eqn:E2; [|done].
  simplify_eq. by apply after_keyword_fits, fits_drop in E2.
Qed.

Lemma context_matches_ok text m :
  m ∈ context_matches text -> span_ok text (c_start1 m) (c_end1 m).
Proof.
  unfold context_matches. intros H.
  apply list_elem_of_fmap in H as ([p [off n]] & -> & H).
  apply finditer_at in H as (prev & total & _ & Hm).
  rewrite Nat.sub_0_r in Hm.
  destruct (match_context (drop p text)) as [[off' n']|] eqn:E; [|done].
  simplify_eq. apply match_context_fits, fits_drop in E.
  unfold fits in E. unfold span_ok. simpl in *. lia.
Qed.

Lemma extract_genes_dict_ok text :
  dict_ok text
    (fold_left (add_context text) (context_matches text)
       (fold_left (add_explicit text) (explicit_matches text) [])).
Proof.
  apply (fold_ok _ (fun m => span_ok text (c_start1 m) (c_end1 m))).
  - apply add_context_ok.
  - apply Forall_forall, context_matches_ok.
  - apply (fold_ok _ (fun m => span_ok text (e_start1 m) (e_end1 m))).
    + apply add_explicit_ok.
    + apply Forall_forall, explicit_matches_ok.
    + split; [constructor|]. intros k g H. by apply elem_of_nil in H.
Qed.

(** C6, as the code has it.  For every text the records of [extract_genes]
    bear pairwise different symbols, and each offset pair of a record
    delimits a non-empty piece of the text which, once uppercased, is the
    symbol of the record. *)
Theorem extract_genes_records text :
  NoDup (map symbol (extract_genes text)) /\
  forall g a b, g ∈ extract_genes text -> (a, b) ∈ mentions g ->
    (0 <= a /\ a < b /\ b <= Z.of_nat (length text)) /\
    upper (slice a b text) = symbol g.
Proof.
  pose proof (extract_genes_dict_ok text) as [Hnd Hgood].
  unfold extract_genes.
  set (d := fold_left (add_context text) _ _) in *.
  split.
  - rewrite <- list_fmap_compose.
    erewrite list_fmap_ext; [exact Hnd|]. by intros i [k g].
  - intros g a b Hg Hm.
    apply list_elem_of_fmap in Hg as ([k data] & -> & Hin). simpl in *.
    specialize (Hgood k data Hin). rewrite Forall_forall in Hgood.
    by destruct (Hgood _ Hm).
Qed.

Lemma extract_genes_records_witness :
  NoDup (map symbol (extract_genes two_mentions_text)) /\
  forall g a b, g ∈ extract_genes two_mentions_text -> (a, b) ∈ mentions g ->
    (0 <= a /\ a < b /\ b <= Z.of_nat (length two_mentions_text)) /\
    upper (slice a b two_mentions_text) = symbol g.
Proof. exact (extract_genes_records two_mentions_text). Defined.

Example extract_two_mentions :
  extract_genes two_mentions_text
  = [ {| symbol := s "TP53"; hgnc_id := Some 11998;
         mentions := [(0, 4); (46, 50)]; diseases := None |} ].
Proof. vm_compute. reflexivity. Qed.

Example extract_lowercase :
  extract_genes lowercase_text = [gene_of "TP53" [(14, 18)]].
Proof. vm_compute. reflexivity. Qed.

(** C6, as the claim words it, fails on the case of the letters: in
    "a mutation in tp53" the record bears the symbol "TP53" and its offsets
    14..18 delimit "tp53". *)
Lemma lowercase_mention_differs_from_symbol :
  ~ mentions_spell_symbol lowercase_text.
Proof.
  intros H. specialize (H (gene_of "TP53" [(14, 18)]) 14 18).
  rewrite extract_lowercase in H.
  assert (slice 14 18 lowercase_text = symbol (gene_of "TP53" [(14, 18)])) as Heq.
  { apply H; apply elem_of_cons; by left. }
  vm_compute in Heq. discriminate.
Qed.

(** ** Part III. Further properties of the code *)

(** *** Stripping *)

Lemma lstrip_by_head f x c y : lstrip_by f x = c :: y -> f c = false.
Proof.
  induction x as [|a x IH]; simpl; [done|].
  destruct (f a) eqn:E; [exact IH|]. by intros [= -> _].
Qed.

Lemma forallb_has_no (f : ascii -> bool) (y : pystr) c :
  forallb f y = true -> c ∈ y -> f c = true.
Proof. rewrite forallb_forall. intros H Hc. by apply H, list_elem_of_In. Qed.

(** What is left of a text after [strip]: nothing, or a text whose first and
    last characters are outside the stripped class. *)
Lemma strip_by_ends f x :
  strip_by f x = [] \/
  exists c y z d, strip_by f x = c :: y /\ strip_by f x = z ++ [d] /\
                  f c = false /\ f d = false.
Proof.
  unfold strip_by, rstrip_by.
  destruct (lstrip_by f x) as [|c z'] eqn:Ez; [by left|]. right.
  pose proof (lstrip_by_head _ _ _ _ Ez) as Hc.
  destruct (lstrip_by_suffix f (rev (c :: z'))) as (a & Ha & Hall).
  destruct (lstrip_by f (rev (c :: z'))) as [|d u'] eqn:Eu.
  { rewrite app_nil_r in Ha. exfalso.
    assert (f c = true); [|congruence].
    apply (forallb_has_no f a); [done|]. rewrite <- Ha.
    apply list_elem_of_In, in_rev. rewrite rev_involutive. by left. }
  pose proof (lstrip_by_head _ _ _ _ Eu) as Hd.
  destruct (rev_ind (fun u => u = d :: u' -> exists u0, u = u0 ++ [c]))
    with (l := d :: u') as [u0 Hu0]; [done| |done|].
  { intros e u _ Hu. exists u. f_equal.
    simpl in Ha. rewrite <- Hu, app_assoc in Ha.
    apply app_inj_tail in Ha as [_ ?]. by f_equal. }
  exists c, (rev u0), (rev u'), d.
  rewrite Hu0 at 1. rewrite rev_app_distr. simpl. done.
Qed.

Lemma strip_by_fixed f x : strip_by f (strip_by f x) = strip_by f x.
Proof.
  destruct (strip_by_ends f x) as [->|(c & y & z & d & Hy & Hz & Hc & Hd)];
    [done|].
  unfold strip_by at 1. rewrite Hy, (lstrip_by_keep f c y Hc), <- Hy, Hz.
  by apply rstrip_by_keep.
Qed.

Lemma lstrip_by_map f g x :
  (forall c, f (g c) = f c) ->
  lstrip_by f (map g x) = map g (lstrip_by f x).
Proof.
  intros H. induction x as [|c x IH]; simpl; [done|].
  rewrite H. by destruct (f c).
Qed.

Lemma strip_by_map f g x :
  (forall c, f (g c) = f c) ->
  strip_by f (map g x) = map g (strip_by f x).
Proof.
  intros H. unfold strip_by, rstrip_by.
  by rewrite lstrip_by_map, <- map_rev, lstrip_by_map, map_rev.
Qed.

Lemma space_lower_char c : is_space (lower_char c) = is_space c.
Proof. by_chars c. Qed.

Lemma lower_char_twice c : lower_char (lower_char c) = lower_char c.
Proof. by_chars c. Qed.

Lemma lower_char_not_upper c : is_upper_char (lower_char c) = false.
Proof. by_chars c. Qed.

Lemma strip_lower x : strip (lower x) = lower (strip x).
Proof. apply strip_by_map, space_lower_char. Qed.

Lemma lower_twice x : lower (lower x) = lower x.
Proof.
  unfold lower. rewrite map_map. apply map_ext, lower_char_twice.
Qed.

Lemma lower_not_acronym x : acronym_syndrome (lower x) = false.
Proof.
  unfold acronym_syndrome. destruct (endswith _ _); [|done].
  apply andb_false_iff. right. unfold strip_chars.
  rewrite isupper_strip_by by (intros c; by apply punct_uncased).
  unfold isupper, drop_last. rewrite no_upper_take; [done|].
  unfold lower. rewrite forallb_forall. intros c Hc.
  apply in_map_iff in Hc as (d & <- & _). by rewrite lower_char_not_upper.
Qed.

(** *** The generic-term filter and the case of the letters *)

(** X1.  Blanks around a term do not matter to the filter: a term and the
    same term stripped are classified alike. *)
Theorem is_generic_ignores_padding term :
  _is_generic (strip term) = _is_generic term.
Proof. unfold _is_generic, strip. by rewrite strip_by_fixed. Qed.

(** X2.  The acronym case is the only rule of the filter that looks at the
    case of the letters: a term that does not fall under it is classified as
    its lowercase form is, and lowercasing a generic term always leaves it
    generic. *)
Theorem is_generic_case term :
  (acronym_syndrome (strip term) = false ->
   _is_generic (lower term) = _is_generic term) /\
  (_is_generic term = true -> _is_generic (lower term) = true).
Proof.
  assert (acronym_syndrome (strip term) = false ->
          _is_generic (lower term) = _is_generic term) as Hsame.
  { intros Ha. unfold _is_generic.
    rewrite strip_lower, lower_not_acronym, lower_twice, Ha. done. }
  split; [exact Hsame|].
  intros Hg. destruct (acronym_syndrome (strip term)) eqn:Ha.
  - unfold _is_generic in Hg. by rewrite Ha in Hg.
  - by rewrite Hsame.
Qed.

Lemma is_generic_case_witness :
  acronym_syndrome (strip (s " Autosomal Recessive ")) = false /\
  _is_generic (lower (s " Autosomal Recessive "))
  = _is_generic (s " Autosomal Recessive ").
Proof.
  split; [reflexivity|].
  apply (proj1 (is_generic_case (s " Autosomal Recessive "))). reflexivity.
Defined.

(** *** What the fetchers hand back *)

Lemma split_char_no_sep sep x p : p ∈ split_char sep x -> sep ∉ p.
Proof.
  revert p; induction x as [|c x IH]; simpl; intros p.
  - intros H. apply list_elem_of_singleton in H as ->. apply not_elem_of_nil.
  - destruct (bool_decide (c = sep)) eqn:E.
    + intros H. apply elem_of_cons in H as [->|H]; [apply not_elem_of_nil|].
      by apply IH.
    + apply bool_decide_eq_false in E.
      pose proof (IH) as IH'.
      destruct (split_char sep x) as [|q qs]; simpl.
      * intros H. apply list_elem_of_singleton in H as ->.
        intros Hin. apply list_elem_of_singleton in Hin. congruence.
      * intros H. apply elem_of_cons in H as [->|H].
        -- intros Hin. apply elem_of_cons in Hin as [Hin|Hin]; [congruence|].
           by apply (IH' q); [apply elem_of_cons; left|].
        -- apply IH'. apply elem_of_cons. by right.
Qed.

Lemma elem_of_strip_by f x c : c ∈ strip_by f x -> c ∈ x.
Proof.
  unfold strip_by. intros H.
  destruct (lstrip_by_suffix f x) as (y1 & Hy1 & _).
  destruct (rstrip_by_prefix f (lstrip_by f x)) as (y2 & Hy2 & _).
  rewrite Hy1, Hy2. rewrite !elem_of_app. tauto.
Qed.

Lemma aliases_of_clean data entrez_id l a :
  aliases_of data entrez_id = Ok l -> a ∈ l ->
  a <> [] /\ strip a = a /\ ","%char ∉ a.
Proof.
  unfold aliases_of, py_split_comma.
  destruct (py_get data _ _) as [res|]; simpl; [|done].
  destruct (py_get res _ _) as [result|]; simpl; [|done].
  destruct (py_get result _ _) as [aliases_str|]; simpl; [|done].
  destruct (negb (py_truthy aliases_str)).
  { intros [= <-] H. by apply elem_of_nil in H. }
  destruct aliases_str as [|b|n|x|js|kv]; simpl; try done.
  intros [= <-] Ha.
  apply list_elem_of_fmap in Ha as (piece & -> & Hp).
  apply list_elem_of_In, filter_In in Hp as [Hp Hne].
  apply negb_true_iff, str_eqb_neq in Hne.
  split; [done|]. split; [apply strip_by_fixed|].
  intros Hc. apply elem_of_strip_by in Hc.
  by apply (split_char_no_sep "," x piece); [apply list_elem_of_In|].
Qed.

(** X3.  The aliases that [fetch_ncbi_aliases] returns are clean: none is
    empty, none has a blank at either end and none holds a comma. *)
Theorem ncbi_aliases_are_clean net entrez_id t l a :
  (fetch_ncbi_aliases net entrez_id t).1 = Ok l -> a ∈ l ->
  a <> [] /\ strip a = a /\ ","%char ∉ a.
Proof.
  unfold fetch_ncbi_aliases, requests_get.
  destruct (net t _) as [|r]; simpl.
  { intros [= <-] H. by apply elem_of_nil in H. }
  destruct (resp_json r) as [data|]; simpl.
  - apply aliases_of_clean.
  - intros [= <-] H. by apply elem_of_nil in H.
Qed.

(** X4.  [fetch_coordinates_by_ensembl] raises in one case only, with
    [AttributeError]: the answer has status 200 and its body decodes to a
    value that is true and is not an object.  In every other case it
    returns the empty string or a string that starts with "chr". *)
Theorem ensembl_coordinates_outcome py_str net ensembl_id assembly t :
  (forall e,
     (fetch_coordinates_by_ensembl py_str net ensembl_id assembly t).1 = Raise e
     <->
     e = AttributeError /\
     exists r data,
       net t (ensembl_request ensembl_id assembly) = Got r /\
       status_code r = 200 /\ json_body r = Some data /\
       py_truthy data = true /\ forall kv, data <> JDict kv) /\
  (forall x,
     (fetch_coordinates_by_ensembl py_str net ensembl_id assembly t).1 = Ok x ->
     x = [] \/ startswith (s "chr") x = true).
Proof.
  unfold fetch_coordinates_by_ensembl, requests_get.
  destruct (net t _) as [|r] eqn:Enet; simpl.
  { split; [|intros x [= <-]; by left].
    intros e. split; [done|]. by intros (_ & r & data & ? & _). }
  destruct (status_code r =? 200) eqn:Est; simpl.
  2: { apply Z.eqb_neq in Est. split; [|intros x [= <-]; by left].
       intros e. split; [done|].
       intros (_ & r' & data & [= <-] & ? & _). done. }
  apply Z.eqb_eq in Est. unfold resp_json.
  destruct (json_body r) as [data|] eqn:Ebody; simpl.
  2: { split; [|intros x [= <-]; by left].
       intros e. split; [done|].
       intros (_ & r' & data & [= <-] & _ & ? & _). congruence. }
  unfold coordinates_of.
  destruct (py_truthy data) eqn:Etruthy; simpl.
  2: { split; [|intros x [= <-]; by left].
       intros e. split; [done|].
       intros (_ & r' & data' & [= <-] & _ & ? & ? & _). congruence. }
  destruct data as [|b|n|y|js|kv]; simpl.
  6: { split.
       - intros e. split; [by repeat case_match|].
         intros (_ & r' & data' & [= <-] & _ & Hb & _ & Hno).
         rewrite Ebody in Hb. injection Hb as <-. by destruct (Hno kv).
       - intros x. destruct (_ && _)%bool; intros [= <-]; [by right | by left]. }
  all: split; [|done].
  all: intros e; split;
    [ intros [= <-]; split; [done|];
      exists r; eexists; repeat split; try done; by rewrite Ebody
    | by intros (-> & _) ].
Qed.

Lemma ncbi_aliases_are_clean_witness :
  (fetch_ncbi_aliases net_aliases (s "7157") 0).1
  = Ok [s "BCC7"; s "LFS1"; s "P53"] /\
  s "P53" ∈ [s "BCC7"; s "LFS1"; s "P53"] /\
  s "P53" <> [] /\ strip (s "P53") = s "P53" /\ ","%char ∉ s "P53".
Proof.
  assert ((fetch_ncbi_aliases net_aliases (s "7157") 0).1
          = Ok [s "BCC7"; s "LFS1"; s "P53"]) as Hrun by (vm_compute; reflexivity).
  assert (s "P53" ∈ [s "BCC7"; s "LFS1"; s "P53"]) as Hin
    by (apply (bool_decide_unpack _); by vm_compute).
  split; [exact Hrun|]. split; [exact Hin|].
  exact (ncbi_aliases_are_clean net_aliases (s "7157") 0%nat _ _ Hrun Hin).
Defined.

(** *** More on the linker *)

(** X5.  Every disease name that [associate_diseases] adds to a gene is the
    cleaned text of an entity of the document labelled DISEASE; the name is
    neither empty nor blank nor generic, and it neither starts nor ends with
    one of the marks [.,;:]. *)
Theorem linked_names_provenance net genes doc t i g g' name :
  genes !! i = Some g ->
  (associate_diseases net genes doc t).1 !! i = Some g' ->
  name ∈ default ∅ (diseases g') ->
  name ∉ default ∅ (diseases g) ->
  exists ent,
    ent ∈ ents doc /\ label_ ent = s "DISEASE" /\
    name = disease_name_of ent /\
    name <> [] /\ strip name <> [] /\ _is_generic name = false /\
    forall c, head name = Some c \/ last name = Some c ->
              mem_char c (s ".,;:") = false.
Proof.
  intros Hi Hi' Hin Hnew.
  destruct (associate_diseases_names _ _ _ _ _ _ _ _ Hi Hi' Hin)
    as [?|(ent & t' & Hent & -> & (Hl & Hne & Hng & Hv))]; [done|].
  exists ent. repeat split; try done.
  - apply is_valid_spec in Hv. tauto.
  - intros c Hc. unfold disease_name_of, strip_chars in *.
    destruct (strip_by_ends (fun c => mem_char c (s ".,;:")) (strip (ent_text ent)))
      as [He|(a & y & z & d & Hy & Hz & Ha & Hd)]; [done|].
    destruct Hc as [Hc|Hc].
    + rewrite Hy in Hc. simpl in Hc. by simplify_eq.
    + rewrite Hz, last_snoc in Hc. by simplify_eq.
Qed.

Lemma linked_names_provenance_witness :
  exists ent,
    ent ∈ [middle_ent] /\ label_ ent = s "DISEASE" /\
    s "Marfan syndrome" = disease_name_of ent /\
    s "Marfan syndrome" <> [] /\ strip (s "Marfan syndrome") <> [] /\
    _is_generic (s "Marfan syndrome") = false /\
    forall c, head (s "Marfan syndrome") = Some c \/
              last (s "Marfan syndrome") = Some c ->
              mem_char c (s ".,;:") = false.
Proof.
  apply (linked_names_provenance net_yes one_before_one_after
           {| sents := three_sents; ents := [middle_ent] |} 0%nat 0%nat
           (gene_of "AAA" [(5, 8)])
           (add_disease (s "Marfan syndrome") (gene_of "AAA" [(5, 8)]))).
  - reflexivity.
  - vm_compute. reflexivity.
  - simpl. set_solver.
  - simpl. set_solver.
Defined.

(** X6.  One entity changes at most one gene of the list, also when several
    genes are at the same distance. *)
Theorem entity_changes_at_most_one_gene net sentences genes t ent :
  exists j, forall i, i <> j ->
    (process_entity net sentences (genes, t) ent).1 !! i = genes !! i.
Proof.
  destruct (accepted_dec net ent t) as [Hacc|Hrej].
  - rewrite (process_entity_accepted _ _ _ _ _ Hacc). cbn [fst].
    destruct (link_entity_cases sentences genes ent (disease_name_of ent))
      as [->|[j ->]]; [by exists 0%nat|].
    exists j. intros i Hi. unfold link. by rewrite list_lookup_alter_ne.
  - exists 0%nat. intros i _. by rewrite process_entity_rejected.
Qed.

Lemma closest_gene_in_sentence ent genes i :
  closest_gene (ent_sent ent) (midpoint (ent_start ent) (ent_end ent))
    (genes_in_sentence (ent_sent ent) genes) = Some i ->
  exists g, genes !! i = Some g /\ has_mention_in (ent_sent ent) g = true.
Proof.
  set (sp := ent_sent ent). set (gis := genes_in_sentence sp genes).
  intros Hc.
  assert (gis <> []) as Hne by (intros E; by rewrite E in Hc).
  assert (forall x, x ∈ gis -> is_Some (first_mention_in sp x.2)) as Hall.
  { intros [k g] Hx. apply elem_of_genes_in_sentence in Hx as [_ Hx].
    apply has_mention_in_first in Hx as [m Hm]. by exists m. }
  destruct (closest_fold_spec ent gis Hall Hne)
    as (l1 & k & g & m & l2 & Heq & _ & Hfold & _).
  fold sp in Hfold. unfold closest_gene in Hc. rewrite Hfold in Hc.
  simpl in Hc. injection Hc as ->.
  exists g. apply elem_of_genes_in_sentence. fold gis. rewrite Heq.
  apply elem_of_app; right. apply elem_of_cons; by left.
Qed.

(** With pairwise different symbols, the gene an adjacent sentence gives is
    one that the sentence mentions. *)
Lemma unique_gene_mentioned sp genes j :
  NoDup (symbol <$> genes) -> unique_gene sp genes = Some j ->
  exists g, genes !! j = Some g /\ has_mention_in sp g = true.
Proof.
  intros Hnd Hu. unfold unique_gene in Hu.
  destruct (elements (symbols_in sp genes)) as [|sym [|? ?]] eqn:E; try done.
  apply elements_one in E.
  assert (mentioned_in sp genes sym) as (g0 & m & Hg0 & Hm & Hins & Hsym).
  { apply elem_of_symbols_in. rewrite E. by apply elem_of_singleton. }
  unfold first_with_symbol in Hu.
  destruct (list_find _ genes) as [[j' g]|] eqn:Ef; [|done].
  simpl in Hu. injection Hu as ->.
  apply list_find_Some in Ef as (Hj & Hsj & _).
  apply list_elem_of_lookup in Hg0 as [k Hk].
  assert (j = k) as ->.
  { apply (NoDup_lookup (symbol <$> genes) j k sym); [done| |].
    - by rewrite list_lookup_fmap, Hj; simpl; f_equal.
    - by rewrite list_lookup_fmap, Hk; simpl; f_equal. }
  exists g. split; [done|]. simplify_eq.
  apply has_mention_in_elem. eauto.
Qed.

(** X7.  When the genes bear pairwise different symbols, an entity only
    changes a gene that is mentioned in the sentence of the entity, in the
    sentence right before it or in the sentence right after it. *)
Theorem linked_gene_is_mentioned_nearby net sentences genes t ent j :
  NoDup (symbol <$> genes) ->
  (process_entity net sentences (genes, t) ent).1 !! j <> genes !! j ->
  exists g sp,
    genes !! j = Some g /\ has_mention_in sp g = true /\
    (sp = ent_sent ent \/
     exists i, sent_index sentences (start_char (ent_sent ent)) = Some i /\
               (sentences !! S i = Some sp \/
                exists k, i = S k /\ sentences !! k = Some sp)).
Proof.
  intros Hnd Hchg.
  destruct (accepted_dec net ent t) as [Hacc|Hrej];
    [|by rewrite process_entity_rejected in Hchg].
  rewrite (process_entity_accepted _ _ _ _ _ Hacc) in Hchg. cbn [fst] in Hchg.
  unfold link_entity in Hchg.
  assert (forall i, link (disease_name_of ent) i genes !! j <> genes !! j -> i = j)
    as Hsame.
  { intros i Hne. destruct (decide (i = j)) as [|Hij]; [done|].
    unfold link in Hne. by rewrite list_lookup_alter_ne in Hne. }
  destruct (genes_in_sentence (ent_sent ent) genes) as [|x gis] eqn:Egis.
  - destruct (sent_index sentences _) as [i|] eqn:Eidx; [|done].
    destruct (linked_gene sentences genes i) as [j'|] eqn:El; [|done].
    apply Hsame in Hchg as ->.
    unfold linked_gene in El. rewrite linked_from_prev_spec in El.
    rewrite linked_from_next_spec in El.
    destruct i as [|k].
    + destruct (sentences !! 1%nat) as [sp|] eqn:Esp; [|done]. simpl in El.
      destruct (unique_gene_mentioned _ _ _ Hnd El) as (g & Hg & Hm).
      exists g, sp. split; [done|]. split; [done|]. right. exists 0%nat. eauto.
    + destruct (sentences !! k) as [sp|] eqn:Ek; simpl in El.
      * destruct (unique_gene sp genes) as [j0|] eqn:Eu.
        -- injection El as ->.
           destruct (unique_gene_mentioned _ _ _ Hnd Eu) as (g & Hg & Hm).
           exists g, sp. split; [done|]. split; [done|]. right.
           exists (S k). split; [done|]. right. eauto.
        -- destruct (sentences !! S (S k)) as [sp'|] eqn:Esp; [|done].
           simpl in El.
           destruct (unique_gene_mentioned _ _ _ Hnd El) as (g & Hg & Hm).
           exists g, sp'. split; [done|]. split; [done|]. right.
           exists (S k). eauto.
      * destruct (sentences !! S (S k)) as [sp'|] eqn:Esp; [|done].
        simpl in El.
        destruct (unique_gene_mentioned _ _ _ Hnd El) as (g & Hg & Hm).
        exists g, sp'. split; [done|]. split; [done|]. right.
        exists (S k). eauto.
  - rewrite <- Egis in Hchg.
    destruct (closest_gene _ _ _) as [i|] eqn:Ec; [|done].
    apply Hsame in Hchg as ->.
    destruct (closest_gene_in_sentence _ _ _ Ec) as (g & Hg & Hm).
    exists g, (ent_sent ent). eauto.
Qed.

Lemma linked_gene_is_mentioned_nearby_witness :
  NoDup (symbol <$> one_before_one_after) /\
  (process_entity net_yes three_sents (one_before_one_after, 0%nat) middle_ent).1
    !! 0%nat <> one_before_one_after !! 0%nat /\
  exists g sp,
    one_before_one_after !! 0%nat = Some g /\ has_mention_in sp g = true /\
    (sp = ent_sent middle_ent \/
     exists i, sent_index three_sents (start_char (ent_sent middle_ent)) = Some i /\
               (three_sents !! S i = Some sp \/
                exists k, i = S k /\ three_sents !! k = Some sp)).
Proof.
  assert (NoDup (symbol <$> one_before_one_after)) as Hnd
    by (apply (bool_decide_unpack _); by vm_compute).
  assert ((process_entity net_yes three_sents (one_before_one_after, 0%nat)
             middle_ent).1 !! 0%nat <> one_before_one_after !! 0%nat) as Hchg.
  { rewrite adjacent_links_previous. vm_compute. discriminate. }
  split; [exact Hnd|]. split; [exact Hchg|].
  exact (linked_gene_is_mentioned_nearby net_yes three_sents
           one_before_one_after 0%nat middle_ent 0%nat Hnd Hchg).
Defined.

Lemma is_valid_clock net term t :
  (t <= (is_valid_disease_name net term t).2 <= t + 3)%nat.
Proof. unfold is_valid_disease_name. repeat case_match; simpl; lia. Qed.

Lemma process_entity_clock net sentences genes t ent :
  (t <= (process_entity net sentences (genes, t) ent).2
   <= t + (if str_eqb (label_ ent) (s "DISEASE") then 3 else 0))%nat.
Proof.
  unfold process_entity.
  destruct (str_eqb (label_ ent) (s "DISEASE")); simpl; [|lia].
  destruct (_ || _)%bool; simpl; [lia|].
  pose proof (is_valid_clock net (disease_name_of ent) t) as H.
  destruct (is_valid_disease_name net (disease_name_of ent) t) as [v t'].
  simpl in H. destruct v; simpl; lia.
Qed.

(** X8.  [associate_diseases] makes at most three lookups for each entity
    labelled DISEASE and none for the other entities. *)
Theorem lookup_budget net genes doc t :
  (t <= (associate_diseases net genes doc t).2
   <= t + 3 * length (List.filter (fun e => str_eqb (label_ e) (s "DISEASE"))
                                  (ents doc)))%nat.
Proof.
  unfold associate_diseases. generalize (ents doc) as es.
  intros es. revert genes t.
  induction es as [|e es IH]; intros genes t; cbn [fold_left List.filter].
  - simpl. lia.
  - pose proof (process_entity_clock net (sents doc) genes t e) as He.
    destruct (process_entity net (sents doc) (genes, t) e) as [genes1 t1].
    specialize (IH genes1 t1). cbn [snd] in He.
    destruct (str_eqb (label_ e) (s "DISEASE")); cbn [length]; lia.
Qed.

(** *** More on the extractor *)

Lemma dict_get_set key v d k :
  dict_get k (dict_set key v d)
  = if str_eqb key k then Some v else dict_get k d.
Proof.
  induction d as [|[k0 w] d IH]; simpl; [done|].
  destruct (str_eqb k0 key) eqn:E0; simpl.
  - apply str_eqb_eq in E0. subst k0. by destruct (str_eqb key k).
  - rewrite IH. destruct (str_eqb k0 k) eqn:E1; [|done].
    apply str_eqb_eq in E1. subst k0. apply str_eqb_neq in E0.
    by rewrite (proj2 (str_eqb_neq key k)).
Qed.

Lemma dict_get_of_elem d k v :
  NoDup d.*1 -> (k, v) ∈ d -> dict_get k d = Some v.
Proof.
  induction d as [|[k0 w] d IH]; simpl; intros Hnd Hin.
  - by apply elem_of_nil in Hin.
  - apply NoDup_cons in Hnd as [Hk0 Hnd].
    apply elem_of_cons in Hin as [Hin|Hin].
    + simplify_eq. by rewrite (proj2 (str_eqb_eq _ _) eq_refl).
    + destruct (str_eqb k0 k) eqn:E; [|by apply IH].
      apply str_eqb_eq in E as ->. exfalso. apply Hk0.
      apply list_elem_of_fmap. by exists (k, v).
Qed.

Lemma mentions_of_add_explicit text d m k :
  mentions_of k (add_explicit text d m)
  = mentions_of k d
    ++ (if str_eqb (explicit_symbol text m) k then [explicit_span m] else []).
Proof.
  unfold mentions_of, add_explicit. rewrite dict_get_set.
  fold (explicit_symbol text m).
  destruct (str_eqb (explicit_symbol text m) k) eqn:E; [|by rewrite app_nil_r].
  apply str_eqb_eq in E as <-. simpl.
  destruct (dict_get _ d) as [g|]; [|done]. by destruct (hgnc_id g).
Qed.

Lemma mentions_of_add_context text d m k :
  mentions_of k (add_context text d m)
  = mentions_of k d
    ++ (if str_eqb (context_symbol text m) k then [context_span m] else []).
Proof.
  unfold mentions_of, add_context. rewrite dict_get_set.
  fold (context_symbol text m).
  destruct (str_eqb (context_symbol text m) k) eqn:E; [|by rewrite app_nil_r].
  apply str_eqb_eq in E as <-. simpl.
  by destruct (dict_get _ d) as [g|].
Qed.

(** A loop that appends to what a key holds appends, in all, the
    contributions of its turns. *)
Lemma fold_appends {M} (step : GeneDict -> M -> GeneDict)
  (sym : M -> pystr) (span : M -> Z * Z) ms d k :
  (forall d m, mentions_of k (step d m)
               = mentions_of k d ++ (if str_eqb (sym m) k then [span m] else [])) ->
  mentions_of k (fold_left step ms d)
  = mentions_of k d
    ++ map span (List.filter (fun m => str_eqb (sym m) k) ms).
Proof.
  intros Hstep. revert d; induction ms as [|m ms IH]; intros d; simpl.
  - by rewrite app_nil_r.
  - rewrite IH, Hstep. destruct (str_eqb (sym m) k); simpl.
    + by rewrite <- app_assoc.
    + by rewrite app_nil_r.
Qed.

Lemma final_mentions text k :
  mentions_of k
    (fold_left (add_context text) (context_matches text)
       (fold_left (add_explicit text) (explicit_matches text) []))
  = map explicit_span (explicit_for text k)
    ++ map context_span (context_for text k).
Proof.
  rewrite (fold_appends _ (context_symbol text) context_span)
    by (intros; apply mentions_of_add_context).
  rewrite (fold_appends _ (explicit_symbol text) explicit_span)
    by (intros; apply mentions_of_add_explicit).
  done.
Qed.

Lemma extract_genes_elem text g :
  g ∈ extract_genes text <->
  exists data,
    dict_get (symbol g)
      (fold_left (add_context text) (context_matches text)
         (fold_left (add_explicit text) (explicit_matches text) []))
    = Some data /\
    g = {| symbol := symbol g; hgnc_id := hgnc_id data;
           mentions := mentions data; diseases := None |}.
Proof.
  pose proof (extract_genes_dict_ok text) as [Hnd _].
  unfold extract_genes. set (d := fold_left (add_context text) _ _) in *.
  rewrite list_elem_of_fmap. split.
  - intros ([k data] & -> & Hin). exists data. simpl.
    split; [by apply dict_get_of_elem | done].
  - intros (data & Hget & Hg). exists (symbol g, data).
    split; [done | by apply dict_get_elem].
Qed.

(** X9.  The mentions of a record are exactly the spans of the matches that
    give its symbol: first the matches of the pattern with an HGNC id, then
    the matches of the context pattern, each kind from left to right. *)
Theorem mentions_are_the_matches text g :
  g ∈ extract_genes text ->
  mentions g
  = map explicit_span (explicit_for text (symbol g))
    ++ map context_span (context_for text (symbol g)).
Proof.
  intros Hg. apply extract_genes_elem in Hg as (data & Hget & Hg).
  rewrite <- final_mentions. unfold mentions_of. rewrite Hget.
  by rewrite Hg.
Qed.

Lemma mentions_are_the_matches_witness :
  gene_of "TP53" [(14, 18)] ∈ extract_genes lowercase_text /\
  mentions (gene_of "TP53" [(14, 18)])
  = map explicit_span (explicit_for lowercase_text (s "TP53"))
    ++ map context_span (context_for lowercase_text (s "TP53")).
Proof.
  assert (gene_of "TP53" [(14, 18)] ∈ extract_genes lowercase_text) as Hin.
  { rewrite extract_lowercase. apply elem_of_cons; by left. }
  split; [exact Hin|].
  exact (mentions_are_the_matches lowercase_text _ Hin).
Defined.

Lemma recorded_when_matched text k :
  mentions_of k
    (fold_left (add_context text) (context_matches text)
       (fold_left (add_explicit text) (explicit_matches text) [])) <> [] ->
  exists g, g ∈ extract_genes text /\ symbol g = k /\
            mentions g = map explicit_span (explicit_for text k)
                         ++ map context_span (context_for text k).
Proof.
  intros Hne. pose proof (final_mentions text k) as Hm.
  unfold mentions_of in *.
  destruct (dict_get k _) as [data|] eqn:Hget; [|done].
  exists {| symbol := k; hgnc_id := hgnc_id data; mentions := mentions data;
            diseases := None |}.
  split; [|done]. apply extract_genes_elem. by exists data.
Qed.

(** X10.  No match is lost: every match of either pattern has its span among
    the mentions of the record that bears its uppercased symbol. *)
Theorem every_match_is_recorded text :
  (forall m, m ∈ explicit_matches text ->
     exists g, g ∈ extract_genes text /\ symbol g = explicit_symbol text m /\
               explicit_span m ∈ mentions g) /\
  (forall m, m ∈ context_matches text ->
     exists g, g ∈ extract_genes text /\ symbol g = context_symbol text m /\
               context_span m ∈ mentions g).
Proof.
  split; intros m Hm.
  - assert (explicit_span m
            ∈ map explicit_span (explicit_for text (explicit_symbol text m))) as Hin.
    { apply list_elem_of_fmap. exists m. split; [done|].
      apply list_elem_of_In, filter_In. split; [by apply list_elem_of_In|].
      by apply str_eqb_eq. }
    destruct (recorded_when_matched text (explicit_symbol text m))
      as (g & Hg & Hs & Hms).
    { rewrite final_mentions. intros E.
      apply app_eq_nil in E as [E _]. rewrite E in Hin.
      by apply elem_of_nil in Hin. }
    exists g. split; [done|]. split; [done|].
    rewrite Hms. apply elem_of_app. by left.
  - assert (context_span m
            ∈ map context_span (context_for text (context_symbol text m))) as Hin.
    { apply list_elem_of_fmap. exists m. split; [done|].
      apply list_elem_of_In, filter_In. split; [by apply list_elem_of_In|].
      by apply str_eqb_eq. }
    destruct (recorded_when_matched text (context_symbol text m))
      as (g & Hg & Hs & Hms).
    { rewrite final_mentions. intros E.
      apply app_eq_nil in E as [_ E]. rewrite E in Hin.
      by apply elem_of_nil in Hin. }
    exists g. split; [done|]. split; [done|].
    rewrite Hms. apply elem_of_app. by right.
Qed.

Lemma id_of_add_explicit text d m k :
  id_of k (add_explicit text d m)
  = if str_eqb (explicit_symbol text m) k
    then match id_of k d with
         | Some n => Some n
         | None => Some (explicit_id text m)
         end
    else id_of k d.
Proof.
  unfold id_of, add_explicit. rewrite dict_get_set.
  fold (explicit_symbol text m) (explicit_id text m).
  destruct (str_eqb (explicit_symbol text m) k) eqn:E; [|done].
  apply str_eqb_eq in E as <-. simpl.
  destruct (dict_get _ d) as [g|]; [|done].
  destruct (hgnc_id g) eqn:Eg; simpl; [done|done].
Qed.

Lemma id_of_add_context text d m k :
  id_of k (add_context text d m) = id_of k d.
Proof.
  unfold id_of, add_context. rewrite dict_get_set.
  fold (context_symbol text m).
  destruct (str_eqb (context_symbol text m) k) eqn:E; [|done].
  apply str_eqb_eq in E as <-. simpl. by destruct (dict_get _ d).
Qed.

Lemma id_of_fold_explicit text ms d k :
  id_of k (fold_left (add_explicit text) ms d)
  = match id_of k d with
    | Some n => Some n
    | None =>
        head (map (explicit_id text)
                  (List.filter (fun m => str_eqb (explicit_symbol text m) k) ms))
    end.
Proof.
  revert d; induction ms as [|m ms IH]; intros d; simpl.
  - by destruct (id_of k d).
  - rewrite IH, id_of_add_explicit.
    destruct (str_eqb (explicit_symbol text m) k); [|done].
    by destruct (id_of k d).
Qed.

Lemma id_of_fold_context text ms d k :
  id_of k (fold_left (add_context text) ms d) = id_of k d.
Proof.
  revert d; induction ms as [|m ms IH]; intros d; simpl; [done|].
  by rewrite IH, id_of_add_context.
Qed.

(** X11.  The HGNC id of a record is the id of the first match, from the
    left, of the pattern with an id that gives its symbol; a later match
    with another id does not change it, and a symbol that only the context
    pattern finds has no id. *)
Theorem hgnc_id_is_first_explicit text g :
  g ∈ extract_genes text ->
  hgnc_id g = head (map (explicit_id text) (explicit_for text (symbol g))).
Proof.
  intros Hg. apply extract_genes_elem in Hg as (data & Hget & Hg).
  pose proof (id_of_fold_context text (context_matches text)
                (fold_left (add_explicit text) (explicit_matches text) [])
                (symbol g)) as Hid.
  rewrite id_of_fold_explicit in Hid. simpl in Hid.
  unfold id_of at 1 in Hid. rewrite Hget in Hid.
  rewrite Hg. simpl. exact Hid.
Qed.

Lemma hgnc_id_is_first_explicit_witness :
  gene_of "TP53" [(14, 18)] ∈ extract_genes lowercase_text /\
  hgnc_id (gene_of "TP53" [(14, 18)])
  = head (map (explicit_id lowercase_text)
              (explicit_for lowercase_text (s "TP53"))).
Proof.
  assert (gene_of "TP53" [(14, 18)] ∈ extract_genes lowercase_text) as Hin.
  { rewrite extract_lowercase. apply elem_of_cons; by left. }
  split; [exact Hin|].
  exact (hgnc_id_is_first_explicit lowercase_text _ Hin).
Defined.

Example first_id_wins :
  map (fun g => (symbol g, hgnc_id g))
      (extract_genes (s "TP53 (HGNC:11998), also TP53 (HGNC:7)"))
  = [(s "TP53", Some 11998)].
Proof. vm_compute. reflexivity. Qed.

(** *** The characters of a symbol *)

Lemma run_length_forallb p x n :
  (n <= run_length p x)%nat -> forallb p (take n x) = true.
Proof.
  revert n; induction x as [|c x IH]; intros [|n]; simpl; try done; try lia.
  destruct (p c); [|lia]. intros H. simpl. apply IH. lia.
Qed.

Lemma slice_of_nat a n text :
  slice (Z.of_nat a) (Z.of_nat (a + n)) text = take n (drop a text).
Proof.
  unfold slice. rewrite !Nat2Z.id. f_equal. lia.
Qed.

Lemma sym_char_ci c : is_sym_char c = true -> is_sym_char_ci c = true.
Proof. unfold is_sym_char_ci. by intros ->. Qed.

Lemma upper_sym_char c :
  is_sym_char_ci c = true -> is_sym_char (upper_char c) = true.
Proof. by_chars c. Qed.

Lemma upper_sym x :
  forallb is_sym_char_ci x = true -> forallb is_sym_char (upper x) = true.
Proof.
  induction x as [|c x IH]; simpl; [done|].
  rewrite !andb_true_iff. intros [Hc Hx]. split; [by apply upper_sym_char | by apply IH].
Qed.

Lemma forallb_weaken (p q : ascii -> bool) x :
  (forall c, p c = true -> q c = true) ->
  forallb p x = true -> forallb q x = true.
Proof.
  intros H. rewrite !forallb_forall. intros Hp c Hc. by apply H, Hp.
Qed.

Lemma explicit_group_clean text m :
  m ∈ explicit_matches text ->
  forallb is_sym_char_ci (slice (e_start1 m) (e_end1 m) text) = true.
Proof.
  unfold explicit_matches. intros H.
  apply list_elem_of_fmap in H as ([p [[n1 off2] n2]] & -> & H).
  apply finditer_at in H as (prev & total & _ & Hm).
  rewrite Nat.sub_0_r in Hm. simpl. rewrite slice_of_nat.
  set (x := drop p text) in *.
  destruct (match_explicit prev x) as [[[[n1' off2'] n2'] total']|] eqn:E;
    [|done].
  simplify_eq. unfold match_explicit in E.
  assert (n1 = run_length is_sym_char x) as ->
    by (repeat case_match; by simplify_eq).
  apply (forallb_weaken is_sym_char); [apply sym_char_ci|].
  by apply run_length_forallb.
Qed.

Section ContextGroup.

Variable G : nat * nat -> pystr -> Prop.
Hypothesis G_drop :
  forall k off m x, G (off, m) (drop k x) -> G ((k + off)%nat, m) x.
Hypothesis G_sym : forall x m, sym_group x = Some m -> G (O, m) x.

Lemma article_then_symbol_group art x r :
  article_then_symbol art x = Some r -> G r x.
Proof.
  unfold article_then_symbol. destruct (startswith_ci art x); [|done].
  destruct (spaces1 _) as [n|]; [|done].
  destruct (sym_group _) as [m|] eqn:E; [|done]. intros [= <-].
  apply G_sym, G_drop, G_drop in E.
  replace (length art + n)%nat with (length art + (n + 0))%nat by lia. done.
Qed.

Lemma optional_article_symbol_group x r :
  optional_article_symbol x = Some r -> G r x.
Proof.
  unfold optional_article_symbol.
  destruct (article_then_symbol (s "the") x) eqn:E1;
    [intros [= <-]; by eapply article_then_symbol_group|].
  destruct (article_then_symbol (s "a") x) eqn:E2;
    [intros [= <-]; by eapply article_then_symbol_group|].
  destruct (sym_group x) eqn:E3; [|done].
  intros [= <-]. by apply G_sym.
Qed.

Lemma after_keyword_group x r : after_keyword x = Some r -> G r x.
Proof.
  unfold after_keyword. destruct (spaces1 x) as [n1|]; [|done].
  destruct (startswith_ci _ _); [|done].
  destruct (spaces1 _) as [n2|]; [|done].
  destruct (optional_article_symbol _) as [[off m]|] eqn:E; [|done].
  intros [= <-].
  apply optional_article_symbol_group, G_drop, G_drop, G_drop in E.
  replace (n1 + 2 + n2 + off)%nat with (n1 + (2 + (n2 + off)))%nat by lia. done.
Qed.

Lemma match_context_group x r : match_context x = Some r -> G r x.
Proof.
  unfold match_context. induction CONTEXT_KEYWORDS as [|kw kws IH]; simpl; [done|].
  destruct (keyword_then kw x) as [r'|] eqn:E; [|exact IH].
  intros [= <-]. unfold keyword_then in E.
  destruct (startswith_ci kw x); [|done].
  destruct (after_keyword _) as [[off m]|] eqn:E2; [|done].
  simplify_eq. by apply after_keyword_group, G_drop in E2.
Qed.

End ContextGroup.

Lemma match_context_in_class x r : match_context x = Some r -> in_class r x.
Proof.
  apply match_context_group.
  - intros k off m y. unfold in_class. simpl. by rewrite drop_drop.
  - intros y m H. unfold in_class, sym_group in *.
    apply longest_bounded_le in H. cbn [fst snd]. rewrite drop_0. lia.
Qed.

Lemma context_group_clean text m :
  m ∈ context_matches text ->
  forallb is_sym_char_ci (slice (c_start1 m) (c_end1 m) text) = true.
Proof.
  unfold context_matches. intros H.
  apply list_elem_of_fmap in H as ([p [off n]] & -> & H).
  apply finditer_at in H as (prev & total & _ & Hm).
  rewrite Nat.sub_0_r in Hm. simpl. rewrite slice_of_nat.
  destruct (match_context (drop p text)) as [[off' n']|] eqn:E; [|done].
  simplify_eq. apply match_context_in_class in E. unfold in_class in E.
  simpl in E. rewrite drop_drop in E. by apply run_length_forallb.
Qed.

Lemma slice_nonempty text a b : span_ok text a b -> slice a b text <> [].
Proof.
  intros (Ha & Hab & Hb) E. apply (f_equal length) in E.
  unfold slice in E. rewrite length_take, length_drop in E. simpl in E. lia.
Qed.

Lemma upper_nonempty x : x <> [] -> upper x <> [].
Proof. by destruct x. Qed.

Lemma dict_set_nonempty key g m d :
  dict_nonempty d -> dict_nonempty (dict_set key (append_mention g m) d).
Proof.
  intros Hd k g'. rewrite dict_get_set.
  destruct (str_eqb key k); [|apply Hd].
  intros [= <-]. simpl. by destruct (mentions g).
Qed.

Lemma fold_nonempty {M} (step : GeneDict -> M -> GeneDict) ms d :
  (forall d m, dict_nonempty d -> dict_nonempty (step d m)) ->
  dict_nonempty d -> dict_nonempty (fold_left step ms d).
Proof.
  intros Hstep. revert d; induction ms as [|m ms IH]; intros d Hd; simpl;
    [done|].
  by apply IH, Hstep.
Qed.

Lemma extract_genes_nonempty text :
  dict_nonempty
    (fold_left (add_context text) (context_matches text)
       (fold_left (add_explicit text) (explicit_matches text) [])).
Proof.
  apply fold_nonempty; [intros; by apply dict_set_nonempty|].
  apply fold_nonempty; [intros; by apply dict_set_nonempty|].
  by intros k g.
Qed.

(** X12.  On a text of ASCII characters, every record of [extract_genes]
    has at least one mention, and its symbol is a non-empty string of the
    characters A-Z, 0-9 and hyphen.  (Beyond ASCII the class of the context
    pattern, read without regard to case, takes a few more letters, which
    this development does not model.) *)
Theorem records_are_well_formed text g :
  is_ascii_text text ->
  g ∈ extract_genes text ->
  mentions g <> [] /\ symbol g <> [] /\ forallb is_sym_char (symbol g) = true.
Proof.
  intros _ Hg. pose proof (mentions_of_symbol := final_mentions text (symbol g)).
  apply extract_genes_elem in Hg as (data & Hget & Hg).
  pose proof (extract_genes_nonempty text _ _ Hget) as Hne.
  unfold mentions_of in mentions_of_symbol. rewrite Hget in mentions_of_symbol.
  assert (mentions g = mentions data) as Hmg by (by rewrite Hg).
  split; [by rewrite Hmg|].
  destruct (mentions data) as [|m0 ms] eqn:Em; [done|].
  assert (m0 ∈ map explicit_span (explicit_for text (symbol g))
               ++ map context_span (context_for text (symbol g))) as Hin.
  { rewrite <- mentions_of_symbol. apply elem_of_cons; by left. }
  apply elem_of_app in Hin as [Hin|Hin].
  - apply list_elem_of_fmap in Hin as (m & _ & Hm).
    apply list_elem_of_In, filter_In in Hm as [Hm Hsym].
    apply list_elem_of_In in Hm. apply str_eqb_eq in Hsym.
    rewrite <- Hsym. unfold explicit_symbol. split.
    + by apply upper_nonempty, slice_nonempty, explicit_matches_ok.
    + by apply upper_sym, explicit_group_clean.
  - apply list_elem_of_fmap in Hin as (m & _ & Hm).
    apply list_elem_of_In, filter_In in Hm as [Hm Hsym].
    apply list_elem_of_In in Hm. apply str_eqb_eq in Hsym.
    rewrite <- Hsym. unfold context_symbol. split.
    + by apply upper_nonempty, slice_nonempty, context_matches_ok.
    + by apply upper_sym, context_group_clean.
Qed.

Lemma records_are_well_formed_witness :
  is_ascii_text lowercase_text /\
  gene_of "TP53" [(14, 18)] ∈ extract_genes lowercase_text /\
  mentions (gene_of "TP53" [(14, 18)]) <> [] /\
  symbol (gene_of "TP53" [(14, 18)]) <> [] /\
  forallb is_sym_char (symbol (gene_of "TP53" [(14, 18)])) = true.
Proof.
  assert (is_ascii_text lowercase_text) as Hascii.
  { unfold is_ascii_text. apply Forall_forall. intros c Hc.
    cbv [lowercase_text s list_ascii_of_string] in Hc.
    repeat (apply elem_of_cons in Hc as [->|Hc]; [by vm_compute|]).
    by apply elem_of_nil in Hc. }
  assert (gene_of "TP53" [(14, 18)] ∈ extract_genes lowercase_text) as Hin.
  { rewrite extract_lowercase. apply elem_of_cons; by left. }
  split; [exact Hascii|]. split; [exact Hin|].
  exact (records_are_well_formed lowercase_text _ Hascii Hin).
Defined.

(** *** More on get_article_text *)

Lemma strip_by_id f x c y z e :
  x = c :: y -> x = z ++ [e] -> f c = false -> f e = false ->
  strip_by f x = x.
Proof.
  intros Hx Hx' Hc He. unfold strip_by.
  rewrite Hx, (lstrip_by_keep f c y Hc), <- Hx, Hx'. by apply rstrip_by_keep.
Qed.

Lemma digit_not_space c : is_digit_char c = true -> is_space c = false.
Proof. by_chars c. Qed.

Lemma digit_upper c : is_digit_char c = true -> upper_char c = c.
Proof. by_chars c. Qed.

Lemma digit_not_P c : is_digit_char c = true -> c <> "P"%char.
Proof. by_chars c. Qed.

Lemma upper_P_not_space c : upper_char c = "P"%char -> is_space c = false.
Proof. by_chars c. Qed.

Lemma digits_upper d : forallb is_digit_char d = true -> upper d = d.
Proof.
  induction d as [|c d IH]; simpl; [done|].
  rewrite andb_true_iff. intros [Hc Hd]. by rewrite (digit_upper c Hc), IH.
Qed.

Lemma isdigit_inv d :
  isdigit d = true ->
  forallb is_digit_char d = true /\
  (exists c y, d = c :: y /\ is_digit_char c = true) /\
  (exists z e, d = z ++ [e] /\ is_digit_char e = true).
Proof.
  unfold isdigit. destruct d as [|c y]; [done|]. intros Hall.
  split; [done|]. split.
  - exists c, y. split; [done|]. simpl in Hall. by apply andb_true_iff in Hall as [? _].
  - destruct (exists_last (l := c :: y)) as (z & e & Hz); [done|].
    exists z, e. split; [done|].
    rewrite Hz, forallb_app in Hall. simpl in Hall.
    apply andb_true_iff in Hall as [_ Hall]. by apply andb_true_iff in Hall as [? _].
Qed.

Lemma identify_digits d : isdigit d = true -> identify (strip d) = Ok (Pmid d).
Proof.
  intros Hd. pose proof Hd as Hd'.
  apply isdigit_inv in Hd' as (Hall & (c & y & Hy & Hc) & (z & e & Hz & He)).
  assert (strip d = d) as ->.
  { apply (strip_by_id _ _ c y z e); auto using digit_not_space. }
  unfold identify. rewrite (digits_upper d Hall), Hd.
  pose proof (digit_not_P c Hc) as HP.
  assert (startswith (s "PMC") d = false) as ->.
  { rewrite Hy. simpl. by rewrite (bool_decide_eq_false_2 _ (not_eq_sym HP)). }
  assert (startswith (s "PMID") d = false) as ->.
  { rewrite Hy. simpl. by rewrite (bool_decide_eq_false_2 _ (not_eq_sym HP)). }
  done.
Qed.

Lemma identify_pmid_digits p d :
  upper p = s "PMID" -> isdigit d = true ->
  identify (strip (p ++ d)) = Ok (Pmid d).
Proof.
  intros Hp Hd.
  apply isdigit_inv in Hd as (Hall & _ & (z & e & Hz & He)).
  destruct p as [|a [|b [|c [|f [|? ?]]]]]; try done.
  injection Hp as Ha Hb Hc Hf.
  assert (strip ([a; b; c; f] ++ d) = [a; b; c; f] ++ d) as ->.
  { apply (strip_by_id _ _ a ([b; c; f] ++ d) ([a; b; c; f] ++ z) e);
      [done| |by apply upper_P_not_space|by apply digit_not_space].
    by rewrite Hz, <- app_assoc. }
  unfold identify, upper. rewrite map_app. fold (upper d).
  rewrite (digits_upper d Hall). simpl. rewrite Ha, Hb, Hc, Hf. done.
Qed.

(** X13.  The prefix "PMID", in any case of its letters, is optional before
    the digits of a PubMed identifier: with or without it the function makes
    the same requests and gives the same result. *)
Theorem pmid_prefix_is_optional lib net p d t :
  upper p = s "PMID" -> isdigit d = true ->
  get_article_text lib net (p ++ d) t = get_article_text lib net d t.
Proof.
  intros Hp Hd. unfold get_article_text.
  by rewrite (identify_pmid_digits p d Hp Hd), (identify_digits d Hd).
Qed.

Lemma pmid_prefix_is_optional_witness :
  upper (s "Pmid") = s "PMID" /\ isdigit (s "38790019") = true /\
  get_article_text lib_plain net_yes (s "Pmid" ++ s "38790019") 0
  = get_article_text lib_plain net_yes (s "38790019") 0.
Proof.
  split; [reflexivity|]. split; [reflexivity|].
  apply (pmid_prefix_is_optional lib_plain net_yes (s "Pmid") (s "38790019")
           0%nat); reflexivity.
Defined.

Lemma download_body_ok lib net pmcid t x :
  (download_body lib net pmcid t).1 = Ok x ->
  exists r,
    net t (fulltext_request pmcid) = Got r /\
    ~ (400 <= status_code r < 600) /\
    (x = match body_text lib (text r) with
         | None => strip_tags lib (text r)
         | Some None => []
         | Some (Some body) => strip (collapse_ws lib body)
         end).
Proof.
  unfold download_body, requests_get, raise_for_status.
  destruct (net t _) as [|r]; simpl; [done|].
  destruct (400 <=? status_code r) eqn:Hlo;
    destruct (status_code r <? 600) eqn:Hhi; simpl; try done.
  all: intros Hx; exists r; split; [done|]; split;
    [ intros [H1 H2]; apply Z.leb_le in H1; apply Z.ltb_lt in H2; congruence
    | by repeat case_match; simplify_eq ].
Qed.

(** X14.  [get_article_text] returns a text only out of an answer to the
    request of the full text whose status is not a 4xx or 5xx one; that
    request is the first one made, or the one after the search that maps a
    PMID; the text is then the stripped and collapsed body, the empty string
    when there is no body, or the answer without its tags when it does not
    parse. *)
Theorem text_comes_from_the_full_text lib net identifier t x :
  (get_article_text lib net identifier t).1 = Ok x ->
  exists pmcid t1 r,
    (t1 = t \/ t1 = S t) /\
    net t1 (fulltext_request pmcid) = Got r /\
    ~ (400 <= status_code r < 600) /\
    x = match body_text lib (text r) with
        | None => strip_tags lib (text r)
        | Some None => []
        | Some (Some body) => strip (collapse_ws lib body)
        end.
Proof.
  unfold get_article_text.
  destruct (identify (strip identifier)) as [[pmcid|pmid]|e]; [| |done].
  - intros H. apply download_body_ok in H as (r & ? & ? & ?).
    exists pmcid, t, r. auto.
  - destruct (pmcid_of_pmid lib net pmid t) as [[pmcid|e] t'] eqn:E; [|done].
    assert (t' = S t) as ->.
    { unfold pmcid_of_pmid, requests_get in E. by injection E. }
    intros H. apply download_body_ok in H as (r & ? & ? & ?).
    exists pmcid, (S t), r. auto.
Qed.

Lemma text_comes_from_the_full_text_witness :
  (get_article_text lib_plain net_yes (s "PMC11127317") 0).1 = Ok [] /\
  exists pmcid t1 r,
    (t1 = 0%nat \/ t1 = 1%nat) /\
    net_yes t1 (fulltext_request pmcid) = Got r /\
    ~ (400 <= status_code r < 600) /\
    [] = match body_text lib_plain (text r) with
         | None => strip_tags lib_plain (text r)
         | Some None => []
         | Some (Some body) => strip (collapse_ws lib_plain body)
         end.
Proof.
  assert ((get_article_text lib_plain net_yes (s "PMC11127317") 0).1 = Ok [])
    as Hrun by reflexivity.
  split; [exact Hrun|].
  exact (text_comes_from_the_full_text lib_plain net_yes (s "PMC11127317")
           0%nat [] Hrun).
Defined.

(** *** More on write_csv *)

Lemma write_csv_lookup rows path fs :
  write_csv rows path fs !! path
  = Some ([ s "HGNC ID"; s "Gene Symbol"; s "HGNC Gene Name"; s "Gene Aliases";
            s "hg38 Coordinates"; s "hg19 Coordinates"; s "Disease" ]
          :: map (fun gene =>
                    [ Models.hgnc_id gene; Models.gene_symbol gene;
                      Models.gene_name gene; Models.gene_aliases gene;
                      Models.coord_hg38 gene; Models.coord_hg19 gene;
                      Models.disease gene ]) rows).
Proof.
  unfold write_csv.
  rewrite (writerows_lookup _ path rows _
             [[ s "HGNC ID"; s "Gene Symbol"; s "HGNC Gene Name";
                s "Gene Aliases"; s "hg38 Coordinates"; s "hg19 Coordinates";
                s "Disease" ]]); [done|].
  apply (writerow_lookup path _ _ []). apply lookup_insert_eq.
Qed.

Lemma write_csv_lookup_other rows path fs p :
  p <> path -> write_csv rows path fs !! p = fs !! p.
Proof.
  intros Hp. unfold write_csv.
  rewrite writerows_other, writerow_other by done.
  unfold open_w. by rewrite lookup_insert_ne.
Qed.

(** X15.  The last write wins: what the file at a path held, be it the
    output of an earlier call of [write_csv] with that path, leaves no trace
    in what [write_csv] writes to it. *)
Theorem write_csv_overwrites rows0 rows path fs :
  write_csv rows path (write_csv rows0 path fs) = write_csv rows path fs.
Proof.
  apply map_eq. intros p. destruct (decide (p = path)) as [->|Hp].
  - by rewrite !write_csv_lookup.
  - by rewrite !write_csv_lookup_other.
Qed.

(** *** split_values *)

Lemma split_char_word sep w : sep ∉ w -> split_char sep w = [w].
Proof.
  induction w as [|c w IH]; simpl; [done|].
  intros Hno. rewrite bool_decide_eq_false_2 by set_solver.
  rewrite IH; [done | set_solver].
Qed.

Lemma split_char_app sep w rest :
  sep ∉ w -> split_char sep (w ++ sep :: rest) = w :: split_char sep rest.
Proof.
  induction w as [|c w IH]; simpl.
  - intros _. by rewrite bool_decide_eq_true_2.
  - intros Hno. rewrite bool_decide_eq_false_2 by set_solver.
    rewrite IH; [done | set_solver].
Qed.

Lemma lstrip_by_blank f pre x :
  forallb f pre = true -> lstrip_by f (pre ++ x) = lstrip_by f x.
Proof.
  induction pre as [|c pre IH]; simpl; [done|].
  rewrite andb_true_iff. intros [-> Hpre]. by apply IH.
Qed.

Lemma strip_by_blank f pre x :
  forallb f pre = true -> strip_by f (pre ++ x) = strip_by f x.
Proof. intros H. unfold strip_by. by rewrite lstrip_by_blank. Qed.

Lemma split_joined pre ws :
  ws <> [] ->
  Forall (fun w => strip w = w /\ ";"%char ∉ w) ws ->
  forallb is_space pre = true -> ";"%char ∉ pre ->
  map strip (split_char ";" (pre ++ join (s "; ") ws)) = ws.
Proof.
  intros Hne Hall. revert pre.
  induction Hall as [|w ws [Hw Hno] Hrest IH]; [done|].
  intros pre Hpre Hnopre.
  destruct ws as [|w' ws'].
  - simpl. rewrite split_char_word by (rewrite elem_of_app; tauto).
    simpl. unfold strip in *. by rewrite strip_by_blank, Hw.
  - change (join (s "; ") (w :: w' :: ws'))
      with (w ++ ";"%char :: (s " " ++ join (s "; ") (w' :: ws'))).
    rewrite app_assoc, split_char_app by (rewrite elem_of_app; tauto).
    cbn [map]. f_equal.
    + unfold strip in *. by rewrite strip_by_blank, Hw.
    + apply IH; [done|done|]. intros Hin.
      apply list_elem_of_singleton in Hin. discriminate.
Qed.

(** X16.  [split_values] undoes the joining with "; ": values that are
    stripped and hold no semicolon, once joined into one field, come back
    the same and in the same order. *)
Theorem split_values_of_joined ws :
  ws <> [] ->
  Forall (fun w => strip w = w /\ ";"%char ∉ w) ws ->
  split_values (Some (join (s "; ") ws)) = ws.
Proof.
  intros Hne Hall. unfold split_values.
  apply (split_joined [] ws Hne Hall); [done|apply not_elem_of_nil].
Qed.

Lemma split_values_of_joined_witness :
  [s "Marfan syndrome"; s "aortic aneurysm"] <> [] /\
  Forall (fun w => strip w = w /\ ";"%char ∉ w)
         [s "Marfan syndrome"; s "aortic aneurysm"] /\
  split_values (Some (join (s "; ") [s "Marfan syndrome"; s "aortic aneurysm"]))
  = [s "Marfan syndrome"; s "aortic aneurysm"].
Proof.
  assert (Forall (fun w => strip w = w /\ ";"%char ∉ w)
                 [s "Marfan syndrome"; s "aortic aneurysm"]) as Hall.
  { apply Forall_cons. split; [|apply Forall_cons; split; [|constructor]].
    all: split; [reflexivity|].
    all: intros Hin; cbv [s list_ascii_of_string] in Hin.
    all: repeat (apply elem_of_cons in Hin as [Hin|Hin]; [discriminate|]).
    all: by apply elem_of_nil in Hin. }
  split; [done|]. split; [exact Hall|].
  apply (split_values_of_joined [s "Marfan syndrome"; s "aortic aneurysm"]);
    [done | exact Hall].
Defined.

Lemma count_pieces sep x :
  length (split_char sep x)
  = S (length (List.filter (fun c => bool_decide (c = sep)) x)).
Proof.
  induction x as [|c x IH]; simpl; [done|].
  destruct (bool_decide (c = sep)); simpl; [by rewrite IH|].
  rewrite <- IH. by destruct (split_char sep x).
Qed.

(** X17.  [split_values] never drops a piece: a field that is present gives
    one value more than it holds semicolons (the empty field gives one empty
    value), every value is stripped, and only a missing field gives no
    value. *)
Theorem split_values_keeps_every_piece text :
  match text with
  | None => split_values text = []
  | Some x =>
      length (split_values text)
      = S (length (List.filter (fun c => bool_decide (c = ";"%char)) x)) /\
      forall v, v ∈ split_values text -> strip v = v
  end.
Proof.
  destruct text as [x|]; [|done]. unfold split_values. split.
  - by rewrite length_map, count_pieces.
  - intros v Hv. apply list_elem_of_fmap in Hv as (piece & -> & _).
    apply strip_by_fixed.
Qed.

(** *** The HGNC id as a number and as a string *)

Lemma int_of_digits_snoc ds d :
  int_of_digits (ds ++ [d]) = 10 * int_of_digits ds + Z.of_N (code d - 48).
Proof. unfold int_of_digits. by rewrite fold_left_app. Qed.

Lemma pretty_N_char_val k :
  (k < 10)%N ->
  is_digit_char (pretty_N_char k) = true /\
  Z.of_N (code (pretty_N_char k) - 48) = Z.of_N k.
Proof.
  intros Hk.
  assert (k = 0 \/ k = 1 \/ k = 2 \/ k = 3 \/ k = 4 \/ k = 5 \/ k = 6 \/ k = 7
          \/ k = 8 \/ k = 9)%N as H by lia.
  repeat (destruct H as [->|H]; [by vm_compute|]). subst k. by vm_compute.
Qed.

(** The decimal digits that [str()] gives for a natural number. *)
Lemma pretty_N_go_digits x acc :
  exists ds,
    s (pretty_N_go x acc) = ds ++ s acc /\
    forallb is_digit_char ds = true /\
    int_of_digits ds = Z.of_N x /\
    ((0 < x)%N -> ds <> []).
Proof.
  revert acc. induction (N.lt_wf_0 x) as [x _ IH]. intros acc.
  destruct (decide (0 < x)%N) as [Hpos|Hzero].
  - rewrite pretty_N_go_step by done.
    destruct (IH (x `div` 10)%N) with (acc := String (pretty_N_char (x `mod` 10)) acc)
      as (ds & Hds & Hall & Hval & _).
    { apply N.div_lt; lia. }
    destruct (pretty_N_char_val (x `mod` 10)%N) as [Hd Hv].
    { apply N.mod_lt. lia. }
    exists (ds ++ [pretty_N_char (x `mod` 10)]).
    split; [by rewrite Hds, <- app_assoc|]. split; [|split].
    + rewrite forallb_app, Hall. simpl. by rewrite Hd.
    + rewrite int_of_digits_snoc, Hval, Hv.
      rewrite (N.div_mod x 10) at 3 by done. lia.
    + intros _. by destruct ds.
  - assert (x = 0%N) as -> by lia. rewrite pretty_N_go_0.
    exists []. repeat split; try done; lia.
Qed.

Lemma pretty_Z_digits (n : Z) :
  exists ds,
    ds <> [] /\ forallb is_digit_char ds = true /\
    int_of_digits ds = Z.abs n /\
    s (pretty n) = if Z.ltb n 0 then "-"%char :: ds else ds.
Proof.
  destruct n as [|p|p].
  - exists (s "0"). by repeat split.
  - destruct (pretty_N_go_digits (N.pos p) "") as (ds & Hds & Hall & Hval & Hne).
    exists ds. split; [by apply Hne|]. split; [done|]. split; [by rewrite Hval|].
    change (s (pretty (Z.pos p))) with (s (pretty_N_go (N.pos p) "")).
    rewrite Hds. simpl. by rewrite app_nil_r.
  - destruct (pretty_N_go_digits (N.pos p) "") as (ds & Hds & Hall & Hval & Hne).
    exists ds. split; [by apply Hne|]. split; [done|]. split; [by rewrite Hval|].
    change (s (pretty (Z.neg p)))
      with ("-"%char :: s (pretty_N_go (N.pos p) "")).
    rewrite Hds. simpl. by rewrite app_nil_r.
Qed.

Lemma digit_not_int_space c : is_digit_char c = true -> is_int_space c = false.
Proof. by_chars c. Qed.

Lemma digit_not_H c : is_digit_char c = true -> c <> "H"%char.
Proof. by_chars c. Qed.

Lemma digit_not_sign c :
  is_digit_char c = true -> c <> "-"%char /\ c <> "+"%char /\ c <> "_"%char.
Proof. by_chars c. Qed.

Lemma pretty_Z_no_prefix (n : Z) :
  startswith (s "HGNC:") (s (pretty n)) = false.
Proof.
  destruct (pretty_Z_digits n) as (ds & Hne & Hall & _ & ->).
  destruct (n <? 0); [done|].
  destruct ds as [|c ds]; [done|]. simpl in *.
  apply andb_true_iff in Hall as [Hc _].
  by rewrite (bool_decide_eq_false_2 _ (not_eq_sym (digit_not_H c Hc))).
Qed.

Lemma prefixed_id_int (n : Z) :
  prefixed_id (IdInt n) = s "HGNC:" ++ s (pretty n).
Proof. unfold prefixed_id, hgnc_arg_str. by rewrite pretty_Z_no_prefix. Qed.

(** X18.  An id given as a number and the same id given as a string with
    its "HGNC:" prefix make [fetch_hgnc_by_id] do the same thing: the prefix
    is added once and only when it is missing. *)
Theorem hgnc_id_forms_agree net (n : Z) t :
  n <> 0 ->
  fetch_hgnc_by_id net (IdInt n) t
  = fetch_hgnc_by_id net (IdStr (s "HGNC:" ++ s (pretty n))) t.
Proof.
  intros Hn. unfold fetch_hgnc_by_id, hgnc_arg_falsy.
  rewrite (proj2 (Z.eqb_neq n 0) Hn), prefixed_id_int.
  reflexivity.
Qed.

Lemma hgnc_id_forms_agree_witness :
  618 <> 0 /\
  fetch_hgnc_by_id net_yes (IdInt 618) 0
  = fetch_hgnc_by_id net_yes (IdStr (s "HGNC:" ++ s (pretty 618))) 0.
Proof.
  split; [done|]. by apply (hgnc_id_forms_agree net_yes 618 0%nat).
Defined.

Lemma remove_all_none x :
  "H"%char ∉ x -> remove_all (s "HGNC:") x = x.
Proof.
  unfold remove_all. induction x as [|c x IH]; [done|].
  intros Hno. cbn [remove_all_go].
  assert (startswith (s "HGNC:") (c :: x) = false) as ->.
  { simpl. rewrite bool_decide_eq_false_2; [done|]. set_solver. }
  rewrite IH; [done | set_solver].
Qed.

Lemma digits_no_char ds c :
  forallb is_digit_char ds = true -> is_digit_char c = false -> c ∉ ds.
Proof.
  intros Hall Hc Hin. apply (forallb_has_no _ _ _ Hall) in Hin. congruence.
Qed.

Lemma find_first_cons pat c x :
  find_first pat (c :: x)
  = if startswith pat (c :: x) then Some ([], drop (length pat) (c :: x))
    else match find_first pat x with
         | Some (before, after) => Some (c :: before, after)
         | None => None
         end.
Proof. done. Qed.

Lemma no_double_underscore x : "_"%char ∉ x -> contains (s "__") x = false.
Proof.
  unfold contains. induction x as [|c x IH]; [done|].
  intros Hno. rewrite find_first_cons.
  assert (startswith (s "__") (c :: x) = false) as ->.
  { simpl. rewrite bool_decide_eq_false_2; [done|]. set_solver. }
  assert ("_"%char ∉ x) as Hx by set_solver.
  specialize (IH Hx). by destruct (find_first (s "__") x) as [[? ?]|].
Qed.

Lemma filter_digits ds :
  forallb is_digit_char ds = true -> List.filter is_digit_char ds = ds.
Proof.
  induction ds as [|c ds IH]; simpl; [done|].
  rewrite andb_true_iff. intros [-> Hds]. by rewrite IH.
Qed.

Lemma int_literal_ok_digits ds :
  ds <> [] -> forallb is_digit_char ds = true -> int_literal_ok ds = true.
Proof.
  intros Hne Hall. unfold int_literal_ok.
  assert (isdigit ds = true) as Hd by (unfold isdigit; by destruct ds).
  apply isdigit_inv in Hd as (_ & (c & y & Hy & Hc) & (z & e & Hz & He)).
  rewrite no_double_underscore by (by apply digits_no_char).
  rewrite (forallb_weaken is_digit_char _ ds) by (done || by intros ? ->).
  rewrite Hz, rev_app_distr. simpl. rewrite He, <- Hz, Hy, Hc. done.
Qed.

Lemma py_int_digits ds :
  ds <> [] -> forallb is_digit_char ds = true ->
  py_int ds = Some (int_of_digits ds) /\
  py_int ("-"%char :: ds) = Some (- int_of_digits ds).
Proof.
  intros Hne Hall.
  assert (isdigit ds = true) as Hd by (unfold isdigit; by destruct ds).
  apply isdigit_inv in Hd as (_ & (c & y & Hy & Hc) & (z & e & Hz & He)).
  pose proof (int_literal_ok_digits ds Hne Hall) as Hok.
  destruct (digit_not_sign c Hc) as (Hm & Hp & _).
  split; unfold py_int.
  - assert (strip_by is_int_space ds = ds) as ->
      by (apply (strip_by_id _ _ c y z e); auto using digit_not_int_space).
    rewrite Hy, (bool_decide_eq_false_2 _ Hm), (bool_decide_eq_false_2 _ Hp).
    rewrite <- Hy, Hok, filter_digits by done.
    f_equal; lia.
  - assert (strip_by is_int_space ("-"%char :: ds) = "-"%char :: ds) as ->.
    { apply (strip_by_id _ _ "-"%char ds ("-"%char :: z) e);
        [done | by rewrite Hz | done | by apply digit_not_int_space]. }
    rewrite bool_decide_eq_true_2 by done.
    rewrite Hok, filter_digits by done. f_equal; lia.
Qed.

(** X19.  The two programs agree on the form of an HGNC id: the number that
    [extract_hgnc_number] reads in the prefixed id that [fetch_hgnc_by_id]
    builds from a number is that number. *)
Theorem hgnc_number_round_trip (n : Z) :
  extract_hgnc_number (prefixed_id (IdInt n)) = Some n.
Proof.
  rewrite prefixed_id_int. unfold extract_hgnc_number.
  change (remove_all (s "HGNC:") (s "HGNC:" ++ s (pretty n)))
    with (remove_all (s "HGNC:") (s (pretty n))).
  destruct (pretty_Z_digits n) as (ds & Hne & Hall & Hval & ->).
  destruct (py_int_digits ds Hne Hall) as [Hpos Hneg].
  assert ("H"%char ∉ ds) as HH by (by apply digits_no_char).
  destruct (Z.ltb_spec n 0).
  - rewrite remove_all_none by set_solver. rewrite Hneg, Hval. f_equal. lia.
  - rewrite remove_all_none by done. rewrite Hpos, Hval. f_equal. lia.
Qed.
